(** * Ring buffer manager (ringbuff.c, v1.3.1): shallow embedding and properties

    The buffer handle [ringbuff_t*] is an [option ringbuff] ([None] is the
    NULL handle); the memory region [buff->buff] and the caller's [data]
    arrays are [option mem] ([None] is a NULL pointer), a memory region
    being the function from offsets to bytes.  [size_t] is the 32-bit
    unsigned type of the Cortex-M7/M4 targets of this project; every size_t
    addition and subtraction of the source is written with its wrap-around
    [sz].  The event callback is a function pointer, kept as an opaque
    identifier; a call [evt_fn(buff, type, bp)] is recorded as an [event]
    in the list every operation returns. *)

From Stdlib Require Import ZArith Lia List Bool Strings.Byte.
Import ListNotations.
Open Scope Z_scope.

Module RingBuff.

(** ** size_t arithmetic *)

Definition SIZE_T_BITS : Z := 32.
Definition SIZE_T_MOD : Z := 2 ^ SIZE_T_BITS.

(** Result of a size_t addition or subtraction. *)
Definition sz (x : Z) : Z := x mod SIZE_T_MOD.

Definition size_t_ok (x : Z) : Prop := 0 <= x < SIZE_T_MOD.

(** Largest object size on the 32-bit target ([PTRDIFF_MAX]): the region
    handed to [ringbuff_init] is a C object of [size] bytes. *)
Definition PTRDIFF_MAX : Z := 2 ^ 31 - 1.

(** [BUF_MIN(x, y)  ((x) < (y) ? (x) : (y))] *)
Definition BUF_MIN (x y : Z) : Z := if x <? y then x else y.

(** ** Memory *)

Definition mem := Z -> byte.

(** [memcpy(&dst[doff], &src[soff], n)] *)
Definition memcpy (dst : mem) (doff : Z) (src : mem) (soff : Z) (n : Z) : mem :=
  fun i => if (doff <=? i) && (i <? doff + n) then src (soff + (i - doff)) else dst i.

(** ** The handle *)

Inductive ringbuff_evt_type :=
| RINGBUFF_EVT_READ
| RINGBUFF_EVT_WRITE
| RINGBUFF_EVT_RESET.

(** [typedef struct ringbuff { magic1; buff; size; r; w; evt_fn; magic2 }] *)
Record ringbuff := mk_ringbuff {
  magic1 : Z;
  buff : option mem;
  size : Z;
  r : Z;
  w : Z;
  evt_fn : option Z;
  magic2 : Z
}.

Definition set_buff (b : ringbuff) (p : option mem) : ringbuff :=
  mk_ringbuff (magic1 b) p (size b) (r b) (w b) (evt_fn b) (magic2 b).
Definition set_r (b : ringbuff) (x : Z) : ringbuff :=
  mk_ringbuff (magic1 b) (buff b) (size b) x (w b) (evt_fn b) (magic2 b).
Definition set_w (b : ringbuff) (x : Z) : ringbuff :=
  mk_ringbuff (magic1 b) (buff b) (size b) (r b) x (evt_fn b) (magic2 b).
Definition set_evt (b : ringbuff) (f : option Z) : ringbuff :=
  mk_ringbuff (magic1 b) (buff b) (size b) (r b) (w b) f (magic2 b).

(** A call of the event callback: [evt_fn(buff, type, bp)]. *)
Record event := mk_event {
  ev_fn : Z;
  ev_type : ringbuff_evt_type;
  ev_bp : Z
}.

(** [BUF_SEND_EVT(b, type, bp)] *)
Definition BUF_SEND_EVT (b : ringbuff) (ty : ringbuff_evt_type) (bp : Z) : list event :=
  match evt_fn b with
  | Some f => [mk_event f ty bp]
  | None => []
  end.

(** What an operation leaves behind: the handle's struct, the returned
    value and the callback calls it made. *)
Record result (A : Type) := mk_result {
  res_buf : option ringbuff;
  res_val : A;
  res_evts : list event
}.
Arguments mk_result {A} _ _ _.
Arguments res_buf {A} _.
Arguments res_val {A} _.
Arguments res_evts {A} _.

Definition MAGIC1 : Z := 0xDEADBEEF.
(** [~0xDEADBEEF] as a 32-bit unsigned value. *)
Definition MAGIC2 : Z := Z.land (Z.lnot 0xDEADBEEF) 0xFFFFFFFF.

Section Ringbuff.

(** The build option [RINGBUFF_USE_MAGIC]. *)
Variable RINGBUFF_USE_MAGIC : bool.

(** [BUF_IS_VALID(b)] *)
Definition BUF_IS_VALID (ob : option ringbuff) : bool :=
  match ob with
  | None => false
  | Some b =>
      (if RINGBUFF_USE_MAGIC then (magic1 b =? MAGIC1) && (magic2 b =? MAGIC2) else true)
      && match buff b with Some _ => true | None => false end
      && (size b >? 0)
  end.

(** The handle and its region, when [BUF_IS_VALID] holds. *)
Definition buf_view (ob : option ringbuff) : option (ringbuff * mem) :=
  match ob with
  | Some b =>
      match buff b with
      | Some m => if BUF_IS_VALID ob then Some (b, m) else None
      | None => None
      end
  | None => None
  end.

(** [ringbuff_init] *)
Definition ringbuff_init (ob : option ringbuff) (buffdata : option mem) (size : Z)
  : option ringbuff * Z :=
  match ob, buffdata with
  | Some _, Some p =>
      if size =? 0 then (ob, 0) else
      (* BUF_MEMSET of the whole struct to zero *)
      let b := mk_ringbuff 0 None 0 0 0 None 0 in
      let b := mk_ringbuff (magic1 b) (Some p) size (r b) (w b) (evt_fn b) (magic2 b) in
      let b := if RINGBUFF_USE_MAGIC
               then mk_ringbuff MAGIC1 (buff b) (RingBuff.size b) (r b) (w b) (evt_fn b) MAGIC2
               else b in
      (Some b, 1)
  | _, _ => (ob, 0)
  end.

(** [ringbuff_is_ready] *)
Definition ringbuff_is_ready (ob : option ringbuff) : bool := BUF_IS_VALID ob.

(** [ringbuff_free] *)
Definition ringbuff_free (ob : option ringbuff) : option ringbuff :=
  match ob with
  | Some b => if BUF_IS_VALID ob then Some (set_buff b None) else ob
  | None => ob
  end.

(** [ringbuff_set_evt_fn] *)
Definition ringbuff_set_evt_fn (ob : option ringbuff) (f : option Z) : option ringbuff :=
  match ob with
  | Some b => if BUF_IS_VALID ob then Some (set_evt b f) else ob
  | None => ob
  end.

(** [ringbuff_get_free] *)
Definition ringbuff_get_free (ob : option ringbuff) : Z :=
  match buf_view ob with
  | None => 0
  | Some (b, _) =>
      let w := w b in
      let r := r b in
      let size := if w =? r then RingBuff.size b
                  else if r >? w then sz (r - w)
                  else sz (RingBuff.size b - sz (w - r)) in
      sz (size - 1)
  end.

(** [ringbuff_get_full] *)
Definition ringbuff_get_full (ob : option ringbuff) : Z :=
  match buf_view ob with
  | None => 0
  | Some (b, _) =>
      let w := w b in
      let r := r b in
      if w =? r then 0
      else if w >? r then sz (w - r)
      else sz (RingBuff.size b - sz (r - w))
  end.

(** [ringbuff_write] *)
Definition ringbuff_write (ob : option ringbuff) (data : option mem) (btw : Z) : result Z :=
  match buf_view ob, data with
  | Some (b, m), Some d =>
      if btw =? 0 then mk_result ob 0 [] else
      (* Calculate maximum number of bytes available to write *)
      let free := ringbuff_get_free ob in
      let btw := BUF_MIN free btw in
      if btw =? 0 then mk_result ob 0 [] else
      (* Step 1: Write data to linear part of buffer *)
      let tocopy := BUF_MIN (sz (size b - w b)) btw in
      let m := memcpy m (w b) d 0 tocopy in
      let wp := sz (w b + tocopy) in
      let btw := sz (btw - tocopy) in
      (* Step 2: Write data to beginning of buffer (overflow part) *)
      let '(m, wp) := if btw >? 0 then (memcpy m 0 d tocopy btw, btw) else (m, wp) in
      (* Step 3: Check end of buffer *)
      let wp := if wp >=? size b then 0 else wp in
      let b' := set_w (set_buff b (Some m)) wp in
      mk_result (Some b') (sz (tocopy + btw)) (BUF_SEND_EVT b' RINGBUFF_EVT_WRITE (sz (tocopy + btw)))
  | _, _ => mk_result ob 0 []
  end.

(** [ringbuff_read]; the second component of the value is the caller's
    [data] array after the call. *)
Definition ringbuff_read (ob : option ringbuff) (data : option mem) (btr : Z)
  : result (Z * option mem) :=
  match buf_view ob, data with
  | Some (b, m), Some d =>
      if btr =? 0 then mk_result ob (0, data) [] else
      (* Calculate maximum number of bytes available to read *)
      let full := ringbuff_get_full ob in
      let btr := BUF_MIN full btr in
      if btr =? 0 then mk_result ob (0, data) [] else
      (* Step 1: Read data from linear part of buffer *)
      let tocopy := BUF_MIN (sz (size b - r b)) btr in
      let d := memcpy d 0 m (r b) tocopy in
      let rp := sz (r b + tocopy) in
      let btr := sz (btr - tocopy) in
      (* Step 2: Read data from beginning of buffer (overflow part) *)
      let '(d, rp) := if btr >? 0 then (memcpy d tocopy m 0 btr, btr) else (d, rp) in
      (* Step 3: Check end of buffer *)
      let rp := if rp >=? size b then 0 else rp in
      let b' := set_r b rp in
      mk_result (Some b') (sz (tocopy + btr), Some d)
                (BUF_SEND_EVT b' RINGBUFF_EVT_READ (sz (tocopy + btr)))
  | _, _ => mk_result ob (0, data) []
  end.

(** [ringbuff_peek] *)
Definition ringbuff_peek (ob : option ringbuff) (skip_count : Z) (data : option mem) (btp : Z)
  : result (Z * option mem) :=
  match buf_view ob, data with
  | Some (b, m), Some d =>
      if btp =? 0 then mk_result ob (0, data) [] else
      let rp := r b in
      (* Calculate maximum number of bytes available to read *)
      let full := ringbuff_get_full ob in
      (* Skip beginning of buffer *)
      if skip_count >=? full then mk_result ob (0, data) [] else
      let rp := sz (rp + skip_count) in
      let full := sz (full - skip_count) in
      let rp := if rp >=? size b then sz (rp - size b) else rp in
      (* Check maximum number of bytes available to read after skip *)
      let btp := BUF_MIN full btp in
      if btp =? 0 then mk_result ob (0, data) [] else
      (* Step 1: Read data from linear part of buffer *)
      let tocopy := BUF_MIN (sz (size b - rp)) btp in
      let d := memcpy d 0 m rp tocopy in
      let btp := sz (btp - tocopy) in
      (* Step 2: Read data from beginning of buffer (overflow part) *)
      let d := if btp >? 0 then memcpy d tocopy m 0 btp else d in
      mk_result ob (sz (tocopy + btp), Some d) []
  | _, _ => mk_result ob (0, data) []
  end.

(** [ringbuff_reset] *)
Definition ringbuff_reset (ob : option ringbuff) : result unit :=
  match ob with
  | Some b =>
      if BUF_IS_VALID ob then
        let b' := set_r (set_w b 0) 0 in
        mk_result (Some b') tt (BUF_SEND_EVT b' RINGBUFF_EVT_RESET 0)
      else mk_result ob tt []
  | None => mk_result ob tt []
  end.

(** [ringbuff_get_linear_block_read_address]: the pointer
    [&buff->buff[buff->r]] as region and offset, [None] for NULL. *)
Definition ringbuff_get_linear_block_read_address (ob : option ringbuff) : option (mem * Z) :=
  match buf_view ob with
  | None => None
  | Some (b, m) => Some (m, r b)
  end.

(** [ringbuff_get_linear_block_read_length] *)
Definition ringbuff_get_linear_block_read_length (ob : option ringbuff) : Z :=
  match buf_view ob with
  | None => 0
  | Some (b, _) =>
      let w := w b in
      let r := r b in
      if w >? r then sz (w - r)
      else if r >? w then sz (size b - r)
      else 0
  end.

(** [ringbuff_skip] *)
Definition ringbuff_skip (ob : option ringbuff) (len : Z) : result Z :=
  match buf_view ob with
  | None => mk_result ob 0 []
  | Some (b, _) =>
      if len =? 0 then mk_result ob 0 [] else
      let full := ringbuff_get_full ob in          (* Get buffer used length *)
      let len := BUF_MIN len full in               (* Calculate max skip *)
      let rp := sz (r b + len) in                  (* Advance read pointer *)
      let rp := if rp >=? size b then sz (rp - size b) else rp in
      let b' := set_r b rp in
      mk_result (Some b') len (BUF_SEND_EVT b' RINGBUFF_EVT_READ len)
  end.

(** [ringbuff_get_linear_block_write_address] *)
Definition ringbuff_get_linear_block_write_address (ob : option ringbuff) : option (mem * Z) :=
  match buf_view ob with
  | None => None
  | Some (b, m) => Some (m, w b)
  end.

(** [ringbuff_get_linear_block_write_length] *)
Definition ringbuff_get_linear_block_write_length (ob : option ringbuff) : Z :=
  match buf_view ob with
  | None => 0
  | Some (b, _) =>
      let w := w b in
      let r := r b in
      if w >=? r then
        let len := sz (size b - w) in
        if r =? 0 then sz (len - 1) else len
      else sz (r - w - 1)
  end.

(** [ringbuff_advance] *)
Definition ringbuff_advance (ob : option ringbuff) (len : Z) : result Z :=
  match buf_view ob with
  | None => mk_result ob 0 []
  | Some (b, _) =>
      if len =? 0 then mk_result ob 0 [] else
      let free := ringbuff_get_free ob in          (* Get buffer free length *)
      let len := BUF_MIN len free in               (* Calculate max advance *)
      let wp := sz (w b + len) in                  (* Advance write pointer *)
      let wp := if wp >=? size b then sz (wp - size b) else wp in
      let b' := set_w b wp in
      mk_result (Some b') len (BUF_SEND_EVT b' RINGBUFF_EVT_WRITE len)
  end.

(** ** Sequences of calls on one handle *)

(** The entry points that keep a handle in use (all but [ringbuff_free]),
    with their arguments. *)
Inductive rb_op :=
| OpInit (buffdata : option mem) (n : Z)
| OpWrite (data : option mem) (btw : Z)
| OpRead (data : option mem) (btr : Z)
| OpPeek (skip_count : Z) (data : option mem) (btp : Z)
| OpSkip (len : Z)
| OpAdvance (len : Z)
| OpReset
| OpSetEvtFn (f : option Z).

(** The size_t arguments are values of size_t. *)
Definition op_args_ok (o : rb_op) : Prop :=
  match o with
  | OpInit _ n => size_t_ok n
  | OpWrite _ n | OpRead _ n | OpSkip n | OpAdvance n => size_t_ok n
  | OpPeek k _ n => size_t_ok k /\ size_t_ok n
  | OpReset | OpSetEvtFn _ => True
  end.

Definition exec_op (o : rb_op) (ob : option ringbuff) : option ringbuff * list event :=
  match o with
  | OpInit p n => (fst (ringbuff_init ob p n), [])
  | OpWrite d n => let res := ringbuff_write ob d n in (res_buf res, res_evts res)
  | OpRead d n => let res := ringbuff_read ob d n in (res_buf res, res_evts res)
  | OpPeek k d n => let res := ringbuff_peek ob k d n in (res_buf res, res_evts res)
  | OpSkip n => let res := ringbuff_skip ob n in (res_buf res, res_evts res)
  | OpAdvance n => let res := ringbuff_advance ob n in (res_buf res, res_evts res)
  | OpReset => let res := ringbuff_reset ob in (res_buf res, res_evts res)
  | OpSetEvtFn f => (ringbuff_set_evt_fn ob f, [])
  end.

Fixpoint exec_ops (os : list rb_op) (ob : option ringbuff) : option ringbuff * list event :=
  match os with
  | [] => (ob, [])
  | o :: os' =>
      let '(ob1, e1) := exec_op o ob in
      let '(ob2, e2) := exec_ops os' ob1 in
      (ob2, e1 ++ e2)
  end.

(** A handle in use: valid, with its size_t fields in range and both
    indices inside the region. *)
Definition rb_ok (b : ringbuff) : Prop :=
  BUF_IS_VALID (Some b) = true /\ size_t_ok (size b) /\
  0 <= r b < size b /\ 0 <= w b < size b.

End Ringbuff.

(** Bytes in use on a handle in use. *)
Definition used_of (b : ringbuff) : Z :=
  if r b <=? w b then w b - r b else size b - (r b - w b).

(** No callback installed (or the NULL handle). *)
Definition no_cb (ob : option ringbuff) : Prop :=
  match ob with Some b => evt_fn b = None | None => True end.

(** ** Callers of the buffer *)

Section Callers.

Variable RINGBUFF_USE_MAGIC : bool.

(** The [len] bytes at the address [p] (a region and an offset), as
    [HAL_UART_Transmit(&huart3, addr, len, 1000)] is handed them. *)
Definition bytes_at (p : mem * Z) (len : Z) : list byte :=
  map (fun k => fst p (snd p + Z.of_nat k)) (seq 0 (Z.to_nat len)).

(** The buffer part of one pass of the CM7 main loop (CM7/Core/Src/main.c):
    [len = ringbuff_get_linear_block_read_length(rb_cm4_to_cm7)]; when
    [len > 0], transmit the [len] bytes at
    [ringbuff_get_linear_block_read_address] and [ringbuff_skip] them.
    Returns the handle after the pass and the bytes handed to the UART
    driver; the LED and tick handling of the loop do not touch the buffer. *)
Definition cm7_poll (ob : option ringbuff) : option ringbuff * list byte :=
  let len := ringbuff_get_linear_block_read_length RINGBUFF_USE_MAGIC ob in
  if len >? 0 then
    let tx := match ringbuff_get_linear_block_read_address RINGBUFF_USE_MAGIC ob with
              | Some addr => bytes_at addr len
              | None => []
              end in
    (res_buf (ringbuff_skip RINGBUFF_USE_MAGIC ob len), tx)
  else (ob, []).

(** A producer outside the engine (a DMA or another core) storing [len]
    bytes of [data] at [ringbuff_get_linear_block_write_address]. *)
Definition store_linear (ob : option ringbuff) (data : mem) (len : Z) : option ringbuff :=
  match ob, ringbuff_get_linear_block_write_address RINGBUFF_USE_MAGIC ob with
  | Some b, Some (m, off) => Some (set_buff b (Some (memcpy m off data 0 len)))
  | _, _ => ob
  end.

End Callers.

(** ** Shared memory layout (Common/Inc/common.h) *)

(** [MEM_ALIGN(x)  (((x) + 0x00000003) & ~0x00000003)] *)
Definition MEM_ALIGN (x : Z) : Z := Z.land (x + 0x00000003) (Z.lnot 0x00000003).

Definition SHD_RAM_START_ADDR : Z := 0x38000000.
Definition SHD_RAM_LEN : Z := 0x0000FFFF.

Section Layout.

(** [sizeof(ringbuff_t)] *)
Variable sizeof_ringbuff_t : Z.

Definition BUFF_CM4_TO_CM7_ADDR : Z := MEM_ALIGN SHD_RAM_START_ADDR.
Definition BUFF_CM4_TO_CM7_LEN : Z := MEM_ALIGN sizeof_ringbuff_t.
Definition BUFFDATA_CM4_TO_CM7_ADDR : Z := MEM_ALIGN (BUFF_CM4_TO_CM7_ADDR + BUFF_CM4_TO_CM7_LEN).
Definition BUFFDATA_CM4_TO_CM7_LEN : Z := MEM_ALIGN 0x00000400.
Definition BUFF_CM7_TO_CM4_ADDR : Z := MEM_ALIGN (BUFFDATA_CM4_TO_CM7_ADDR + BUFFDATA_CM4_TO_CM7_LEN).
Definition BUFF_CM7_TO_CM4_LEN : Z := MEM_ALIGN sizeof_ringbuff_t.
Definition BUFFDATA_CM7_TO_CM4_ADDR : Z := MEM_ALIGN (BUFF_CM7_TO_CM4_ADDR + BUFF_CM7_TO_CM4_LEN).
Definition BUFFDATA_CM7_TO_CM4_LEN : Z := MEM_ALIGN 0x00000400.

(** The four regions, as start address and length, in this order. *)
Definition shd_regions : list (Z * Z) :=
  [(BUFF_CM4_TO_CM7_ADDR, BUFF_CM4_TO_CM7_LEN);
   (BUFFDATA_CM4_TO_CM7_ADDR, BUFFDATA_CM4_TO_CM7_LEN);
   (BUFF_CM7_TO_CM4_ADDR, BUFF_CM7_TO_CM4_LEN);
   (BUFFDATA_CM7_TO_CM4_ADDR, BUFFDATA_CM7_TO_CM4_LEN)].

End Layout.

(** ** Sample handles and arrays *)

Definition ex_zero : mem := fun _ => x00.

(** The bytes 0, 1, 2, ... *)
Definition ex_data : mem := fun i => match Byte.of_N (Z.to_N i) with Some x => x | None => x00 end.

(** A region of 8 bytes, with [r = 6] and [w = 2]: 4 bytes in use across
    the physical end, and a callback installed. *)
Definition ex_rb : ringbuff := mk_ringbuff MAGIC1 (Some ex_zero) 8 6 2 (Some 7) MAGIC2.

(** The same region, empty, with both indices at 6. *)
Definition ex_rb_empty : ringbuff := mk_ringbuff MAGIC1 (Some ex_zero) 8 6 6 (Some 7) MAGIC2.

(** A region of 4 bytes holding the single byte "A" at index 0. *)
Definition ex_mem_A : mem := fun i => if i =? 0 then x41 else x00.
Definition ex_rb_A : ringbuff := mk_ringbuff MAGIC1 (Some ex_mem_A) 4 0 1 None MAGIC2.
Definition ex_data_B : mem := fun _ => x42.

(** ** Arithmetic helpers *)

Lemma SIZE_T_MOD_val : SIZE_T_MOD = 4294967296.
Proof. reflexivity. Qed.

Lemma sz_small (x : Z) : 0 <= x < SIZE_T_MOD -> sz x = x.
Proof. intros H. unfold sz. apply Z.mod_small; exact H. Qed.

Lemma BUF_MIN_min (x y : Z) : BUF_MIN x y = Z.min x y.
Proof. unfold BUF_MIN. destruct (Z.ltb_spec x y); lia. Qed.

Lemma mod_sub_cases (a b n : Z) :
  0 <= a < n -> 0 <= b < n ->
  (a - b) mod n = if b <=? a then a - b else a - b + n.
Proof.
  intros Ha Hb. destruct (Z.leb_spec b a).
  - apply Z.mod_small; lia.
  - symmetry. apply Z.mod_unique with (-1); lia.
Qed.

Lemma mod_add_cases (a k n : Z) :
  0 <= a < n -> 0 <= k < n ->
  (a + k) mod n = if a + k <? n then a + k else a + k - n.
Proof.
  intros Ha Hk. destruct (Z.ltb_spec (a + k) n).
  - apply Z.mod_small; lia.
  - symmetry. apply Z.mod_unique with 1; lia.
Qed.

(** Case analysis on the comparisons of a goal. *)
Ltac zcase :=
  repeat match goal with
  | |- context [Z.gtb ?a ?b] => rewrite (Z.gtb_ltb a b)
  | |- context [Z.geb ?a ?b] => rewrite (Z.geb_leb a b)
  | |- context [Z.eqb ?a ?b] => destruct (Z.eqb_spec a b)
  | |- context [Z.ltb ?a ?b] => destruct (Z.ltb_spec a b)
  | |- context [Z.leb ?a ?b] => destruct (Z.leb_spec a b)
  end; simpl.

(** Drop the size_t wrap-around where the value is in range. *)
Ltac sz_simpl :=
  repeat match goal with
  | |- context [sz ?x] =>
      rewrite (sz_small x) by (unfold size_t_ok in *; rewrite ?SIZE_T_MOD_val in *; lia)
  end.

Ltac zfinish :=
  first [ reflexivity | (exfalso; lia) | (f_equal; lia) | lia ].

Section Proofs.

Variable M : bool.

Lemma buf_view_valid (b : ringbuff) :
  BUF_IS_VALID M (Some b) = true ->
  exists m, buff b = Some m /\ buf_view M (Some b) = Some (b, m).
Proof.
  intros Hv. unfold buf_view. destruct (buff b) as [m|] eqn:E.
  - exists m. rewrite Hv. split; reflexivity.
  - simpl in Hv. rewrite E in Hv. rewrite andb_false_r, andb_false_l in Hv. discriminate.
Qed.

Lemma buf_view_invalid (ob : option ringbuff) :
  BUF_IS_VALID M ob = false -> buf_view M ob = None.
Proof.
  intros Hv. unfold buf_view. destruct ob as [b|]; [|reflexivity].
  destruct (buff b); [rewrite Hv|]; reflexivity.
Qed.


Lemma used_of_range (b : ringbuff) : rb_ok M b -> 0 <= used_of b < size b.
Proof. intros (_ & _ & Hr & Hw). unfold used_of. zcase; lia. Qed.

Lemma used_of_mod (b : ringbuff) : rb_ok M b -> used_of b = (w b - r b) mod size b.
Proof.
  intros (_ & _ & Hr & Hw). unfold used_of. rewrite mod_sub_cases by lia. zcase; lia.
Qed.

Lemma get_full_ok (b : ringbuff) : rb_ok M b -> ringbuff_get_full M (Some b) = used_of b.
Proof.
  intros Hok. pose proof Hok as (Hv & Hs & Hr & Hw).
  destruct (buf_view_valid b Hv) as (m & _ & Ev).
  unfold ringbuff_get_full, used_of. rewrite Ev. cbv zeta.
  unfold size_t_ok in Hs. zcase; sz_simpl; lia.
Qed.

Lemma get_free_ok (b : ringbuff) :
  rb_ok M b -> ringbuff_get_free M (Some b) = size b - 1 - used_of b.
Proof.
  intros Hok. pose proof Hok as (Hv & Hs & Hr & Hw).
  destruct (buf_view_valid b Hv) as (m & _ & Ev).
  unfold ringbuff_get_free, used_of. rewrite Ev. cbv zeta.
  unfold size_t_ok in Hs. zcase; sz_simpl; lia.
Qed.

(** [ringbuff_write] on a handle in use: [n = min(btw, free)] bytes, byte
    [k] of [data] landing at [(w + k) mod size]. *)
Lemma write_result (b : ringbuff) (m d : mem) (btw : Z) :
  rb_ok M b -> buff b = Some m -> size_t_ok btw ->
  let n := Z.min btw (size b - 1 - used_of b) in
  (n = 0 /\ ringbuff_write M (Some b) (Some d) btw = mk_result (Some b) 0 []) \/
  (0 < n /\ exists m' wp v,
     ringbuff_write M (Some b) (Some d) btw =
       mk_result (Some (set_w (set_buff b (Some m')) wp)) v
                 (BUF_SEND_EVT (set_w (set_buff b (Some m')) wp) RINGBUFF_EVT_WRITE v) /\
     v = n /\ wp = (w b + n) mod size b /\
     forall i, m' i = if (0 <=? i) && (i <? size b) && ((i - w b) mod size b <? n)
                      then d ((i - w b) mod size b) else m i).
Proof.
  intros Hok Hm Hbtw n. pose proof Hok as (Hv & Hs & Hr & Hw).
  destruct (buf_view_valid b Hv) as (m0 & Em & Ev).
  rewrite Hm in Em. injection Em as <-.
  pose proof (used_of_range b Hok) as HU.
  unfold ringbuff_write. rewrite Ev, (get_free_ok b Hok), !BUF_MIN_min.
  unfold size_t_ok in *. rewrite SIZE_T_MOD_val in *.
  destruct (Z.eqb_spec btw 0) as [E0|E0].
  { left. split; [unfold n; lia | reflexivity]. }
  destruct (Z.eqb_spec (Z.min (size b - 1 - used_of b) btw) 0) as [E1|E1].
  { left. split; [unfold n; lia | reflexivity]. }
  right. split; [unfold n; lia|].
  sz_simpl. rewrite Z.gtb_ltb.
  destruct (Z.ltb_spec 0 (Z.min (size b - 1 - used_of b) btw
                          - Z.min (size b - w b) (Z.min (size b - 1 - used_of b) btw)));
    cbv beta iota zeta; do 3 eexists; (split; [reflexivity|]);
    (split; [unfold n; lia|]);
    (split; [rewrite mod_add_cases by (unfold n; lia); unfold n; zcase; lia|]);
    intros i; unfold memcpy;
    (destruct (Z.leb_spec 0 i); destruct (Z.ltb_spec i (size b)); simpl;
     [rewrite mod_sub_cases by lia; destruct (Z.leb_spec (w b) i)| | |]);
    unfold n in *; zcase; zfinish.
Qed.

(** [ringbuff_read] on a handle in use: [n = min(btr, used)] bytes, byte
    [k] of the output taken from [(r + k) mod size]. *)
Lemma read_result (b : ringbuff) (m d : mem) (btr : Z) :
  rb_ok M b -> buff b = Some m -> size_t_ok btr ->
  let n := Z.min btr (used_of b) in
  (n = 0 /\ ringbuff_read M (Some b) (Some d) btr = mk_result (Some b) (0, Some d) []) \/
  (0 < n /\ exists d' rp v,
     ringbuff_read M (Some b) (Some d) btr =
       mk_result (Some (set_r b rp)) (v, Some d')
                 (BUF_SEND_EVT (set_r b rp) RINGBUFF_EVT_READ v) /\
     v = n /\ rp = (r b + n) mod size b /\
     forall k, d' k = if (0 <=? k) && (k <? n) then m ((r b + k) mod size b) else d k).
Proof.
  intros Hok Hm Hbtr n. pose proof Hok as (Hv & Hs & Hr & Hw).
  destruct (buf_view_valid b Hv) as (m0 & Em & Ev).
  rewrite Hm in Em. injection Em as <-.
  pose proof (used_of_range b Hok) as HU.
  unfold ringbuff_read. rewrite Ev, (get_full_ok b Hok), !BUF_MIN_min.
  unfold size_t_ok in *. rewrite SIZE_T_MOD_val in *.
  destruct (Z.eqb_spec btr 0) as [E0|E0].
  { left. split; [unfold n; lia | reflexivity]. }
  destruct (Z.eqb_spec (Z.min (used_of b) btr) 0) as [E1|E1].
  { left. split; [unfold n; lia | reflexivity]. }
  right. split; [unfold n; lia|].
  sz_simpl. rewrite Z.gtb_ltb.
  destruct (Z.ltb_spec 0 (Z.min (used_of b) btr
                          - Z.min (size b - r b) (Z.min (used_of b) btr)));
    cbv beta iota zeta; do 3 eexists; (split; [reflexivity|]);
    (split; [unfold n; lia|]);
    (split; [rewrite mod_add_cases by (unfold n; lia); unfold n; zcase; lia|]);
    intros k; unfold memcpy;
    (destruct (Z.leb_spec 0 k); destruct (Z.ltb_spec k n); simpl;
     [rewrite mod_add_cases by (unfold n in *; lia);
      destruct (Z.ltb_spec (r b + k) (size b))| | |]);
    unfold n in *; zcase; zfinish.
Qed.

(** [ringbuff_peek] with no skip on a handle in use: the handle is
    returned as it was, no callback is called, and the output is the
    [n = min(btp, used)] bytes from [(r + k) mod size]. *)
Lemma peek0_result (b : ringbuff) (m d : mem) (btp : Z) :
  rb_ok M b -> buff b = Some m -> size_t_ok btp ->
  let n := Z.min btp (used_of b) in
  exists d' v,
    ringbuff_peek M (Some b) 0 (Some d) btp = mk_result (Some b) (v, Some d') [] /\
    v = n /\
    forall k, d' k = if (0 <=? k) && (k <? n) then m ((r b + k) mod size b) else d k.
Proof.
  intros Hok Hm Hbtp n. pose proof Hok as (Hv & Hs & Hr & Hw).
  destruct (buf_view_valid b Hv) as (m0 & Em & Ev).
  rewrite Hm in Em. injection Em as <-.
  pose proof (used_of_range b Hok) as HU.
  unfold ringbuff_peek. rewrite Ev, (get_full_ok b Hok), !BUF_MIN_min.
  unfold size_t_ok in *. rewrite SIZE_T_MOD_val in *.
  destruct (Z.eqb_spec btp 0) as [E0|E0].
  { do 2 eexists. split; [reflexivity|]. split; [unfold n; lia|].
    intros k. unfold n. zcase; zfinish. }
  rewrite Z.geb_leb. destruct (Z.leb_spec (used_of b) 0) as [E1|E1].
  { do 2 eexists. split; [reflexivity|]. split; [unfold n; lia|].
    intros k. unfold n. zcase; zfinish. }
  sz_simpl. rewrite Z.geb_leb.
  destruct (Z.leb_spec (size b) (r b + 0)); [lia|].
  rewrite Z.add_0_r, Z.sub_0_r.
  destruct (Z.eqb_spec (Z.min (used_of b) btp) 0) as [E2|E2]; [lia|].
  sz_simpl. rewrite Z.gtb_ltb.
  destruct (Z.ltb_spec 0 (Z.min (used_of b) btp
                          - Z.min (size b - r b) (Z.min (used_of b) btp)));
    cbv beta iota zeta; do 2 eexists; (split; [reflexivity|]);
    (split; [unfold n; lia|]);
    intros k; unfold memcpy;
    (destruct (Z.leb_spec 0 k); destruct (Z.ltb_spec k n); simpl;
     [rewrite mod_add_cases by (unfold n in *; lia);
      destruct (Z.ltb_spec (r b + k) (size b))| | |]);
    unfold n in *; zcase; zfinish.
Qed.

Lemma sz_wrap1 (x : Z) : SIZE_T_MOD <= x < 2 * SIZE_T_MOD -> sz x = x - SIZE_T_MOD.
Proof.
  intros H. unfold sz. symmetry. apply Z.mod_unique with 1; rewrite SIZE_T_MOD_val in *; lia.
Qed.

(** The index update of [ringbuff_skip] and [ringbuff_advance]:
    [p += len; if (p >= size) p -= size;] in size_t.  It stays in range;
    it is [(p + len) mod size] when [p + len] does not wrap in size_t,
    which the object size bound guarantees. *)
Lemma advance_index (p n N : Z) :
  0 <= p < N -> 0 <= n < N -> N < SIZE_T_MOD ->
  let x := sz (p + n) in
  let y := if x >=? N then sz (x - N) else x in
  0 <= y < N /\ (N <= PTRDIFF_MAX -> y = (p + n) mod N).
Proof.
  intros Hp Hn HN x y. unfold y, x. rewrite SIZE_T_MOD_val in HN.
  destruct (Z.ltb_spec (p + n) SIZE_T_MOD) as [Hs|Hs]; rewrite SIZE_T_MOD_val in Hs.
  - rewrite (sz_small (p + n)) by (rewrite SIZE_T_MOD_val; lia).
    rewrite Z.geb_leb. destruct (Z.leb_spec N (p + n)).
    + rewrite sz_small by (rewrite SIZE_T_MOD_val; lia).
      split; [lia|]. intros _. rewrite mod_add_cases by lia. zcase; lia.
    + split; [lia|]. intros _. rewrite mod_add_cases by lia. zcase; lia.
  - rewrite (sz_wrap1 (p + n)) by (rewrite SIZE_T_MOD_val; lia).
    rewrite SIZE_T_MOD_val, Z.geb_leb. destruct (Z.leb_spec N (p + n - 4294967296)); [lia|].
    split; [lia|]. unfold PTRDIFF_MAX. intros HP. lia.
Qed.

(** [ringbuff_skip] on a handle in use. *)
Lemma skip_result (b : ringbuff) (len : Z) :
  rb_ok M b -> size_t_ok len ->
  let n := Z.min len (used_of b) in
  (len = 0 /\ ringbuff_skip M (Some b) len = mk_result (Some b) 0 []) \/
  (len <> 0 /\ exists rp,
     ringbuff_skip M (Some b) len =
       mk_result (Some (set_r b rp)) n (BUF_SEND_EVT (set_r b rp) RINGBUFF_EVT_READ n) /\
     0 <= rp < size b /\ (size b <= PTRDIFF_MAX -> rp = (r b + n) mod size b)).
Proof.
  intros Hok Hlen n. pose proof Hok as (Hv & Hs & Hr & Hw).
  destruct (buf_view_valid b Hv) as (m & Em & Ev).
  pose proof (used_of_range b Hok) as HU.
  unfold ringbuff_skip. rewrite Ev, (get_full_ok b Hok), !BUF_MIN_min.
  destruct (Z.eqb_spec len 0) as [E0|E0]; [left; split; [lia|reflexivity]|].
  right. split; [exact E0|]. eexists. split; [reflexivity|].
  apply (advance_index (r b) n (size b)); unfold n, size_t_ok in *; lia.
Qed.

(** [ringbuff_advance] on a handle in use. *)
Lemma advance_result (b : ringbuff) (len : Z) :
  rb_ok M b -> size_t_ok len ->
  let n := Z.min len (size b - 1 - used_of b) in
  (len = 0 /\ ringbuff_advance M (Some b) len = mk_result (Some b) 0 []) \/
  (len <> 0 /\ exists wp,
     ringbuff_advance M (Some b) len =
       mk_result (Some (set_w b wp)) n (BUF_SEND_EVT (set_w b wp) RINGBUFF_EVT_WRITE n) /\
     0 <= wp < size b /\ (size b <= PTRDIFF_MAX -> wp = (w b + n) mod size b)).
Proof.
  intros Hok Hlen n. pose proof Hok as (Hv & Hs & Hr & Hw).
  destruct (buf_view_valid b Hv) as (m & Em & Ev).
  pose proof (used_of_range b Hok) as HU.
  unfold ringbuff_advance. rewrite Ev, (get_free_ok b Hok), !BUF_MIN_min.
  destruct (Z.eqb_spec len 0) as [E0|E0]; [left; split; [lia|reflexivity]|].
  right. split; [exact E0|]. eexists. split; [reflexivity|].
  apply (advance_index (w b) n (size b)); unfold n, size_t_ok in *; lia.
Qed.

(** [ringbuff_peek] hands back the handle it was given and calls no
    callback, whatever its arguments. *)
Lemma peek_frame (ob : option ringbuff) (k : Z) (d : option mem) (btp : Z) :
  res_buf (ringbuff_peek M ob k d btp) = ob /\ res_evts (ringbuff_peek M ob k d btp) = [].
Proof.
  unfold ringbuff_peek.
  destruct (buf_view M ob) as [[b m]|]; [|split; reflexivity].
  destruct d as [d|]; [|split; reflexivity].
  repeat match goal with |- context [if ?c then _ else _] => destruct c end;
    split; reflexivity.
Qed.

Lemma valid_set_w (b : ringbuff) (x : Z) :
  BUF_IS_VALID M (Some (set_w b x)) = BUF_IS_VALID M (Some b).
Proof. reflexivity. Qed.

Lemma valid_set_r (b : ringbuff) (x : Z) :
  BUF_IS_VALID M (Some (set_r b x)) = BUF_IS_VALID M (Some b).
Proof. reflexivity. Qed.

Lemma valid_set_evt (b : ringbuff) (f : option Z) :
  BUF_IS_VALID M (Some (set_evt b f)) = BUF_IS_VALID M (Some b).
Proof. reflexivity. Qed.

Lemma valid_set_buff (b : ringbuff) (m m' : mem) :
  buff b = Some m -> BUF_IS_VALID M (Some (set_buff b (Some m'))) = BUF_IS_VALID M (Some b).
Proof. intros E. unfold BUF_IS_VALID, set_buff. simpl. rewrite E. reflexivity. Qed.

(** Every entry point but [ringbuff_free] keeps a handle in use in use. *)
Lemma exec_op_ok (b : ringbuff) (o : rb_op) :
  rb_ok M b -> op_args_ok o ->
  exists b', fst (exec_op M o (Some b)) = Some b' /\ rb_ok M b'.
Proof.
  intros Hok Ho. pose proof Hok as (Hv & Hs & Hr & Hw).
  destruct (buf_view_valid b Hv) as (m & Em & Ev).
  pose proof Hs as Hs'; unfold size_t_ok in Hs'.
  destruct o as [p n|d n|d n|k d n|n|n| |f]; cbn [exec_op op_args_ok fst] in Ho |- *.
  - (* ringbuff_init *)
    unfold ringbuff_init. destruct p as [p|]; [|exists b; split; [reflexivity|exact Hok]].
    destruct (Z.eqb_spec n 0); [exists b; split; [reflexivity|exact Hok]|].
    unfold size_t_ok in Ho. eexists. split; [reflexivity|].
    destruct M; repeat split; simpl; try lia.
  - (* ringbuff_write *)
    destruct d as [d|].
    + destruct (write_result b m d n Hok Em Ho) as [(_ & ->)|(_ & m' & wp & v & -> & _ & -> & _)].
      * exists b. split; [reflexivity|exact Hok].
      * eexists. split; [reflexivity|].
        split; [rewrite valid_set_w, (valid_set_buff b m m' Em); exact Hv|].
        simpl. assert (0 <= (w b + Z.min n (size b - 1 - used_of b)) mod size b < size b)
          by (apply Z.mod_pos_bound; lia).
        repeat split; lia.
    + unfold ringbuff_write. rewrite Ev. exists b. split; [reflexivity|exact Hok].
  - (* ringbuff_read *)
    destruct d as [d|].
    + destruct (read_result b m d n Hok Em Ho) as [(_ & ->)|(_ & d' & rp & v & -> & _ & -> & _)].
      * exists b. split; [reflexivity|exact Hok].
      * eexists. split; [reflexivity|].
        split; [rewrite valid_set_r; exact Hv|].
        simpl. assert (0 <= (r b + Z.min n (used_of b)) mod size b < size b)
          by (apply Z.mod_pos_bound; lia).
        repeat split; lia.
    + unfold ringbuff_read. rewrite Ev. exists b. split; [reflexivity|exact Hok].
  - (* ringbuff_peek *)
    rewrite (proj1 (peek_frame (Some b) k d n)). exists b. split; [reflexivity|exact Hok].
  - (* ringbuff_skip *)
    destruct (skip_result b n Hok Ho) as [(_ & ->)|(_ & rp & -> & Hrp & _)].
    + exists b. split; [reflexivity|exact Hok].
    + eexists. split; [reflexivity|].
      split; [rewrite valid_set_r; exact Hv|]. simpl. repeat split; lia.
  - (* ringbuff_advance *)
    destruct (advance_result b n Hok Ho) as [(_ & ->)|(_ & wp & -> & Hwp & _)].
    + exists b. split; [reflexivity|exact Hok].
    + eexists. split; [reflexivity|].
      split; [rewrite valid_set_w; exact Hv|]. simpl. repeat split; lia.
  - (* ringbuff_reset *)
    unfold ringbuff_reset. rewrite Hv. eexists. split; [reflexivity|].
    split; [rewrite valid_set_r, valid_set_w; exact Hv|]. simpl. repeat split; lia.
  - (* ringbuff_set_evt_fn *)
    unfold ringbuff_set_evt_fn. rewrite Hv. eexists. split; [reflexivity|].
    split; [rewrite valid_set_evt; exact Hv|]. simpl. repeat split; lia.
Qed.

(** ** Claims *)

(** C1: on a handle in use (indices in [0, size)), [ringbuff_get_full]
    plus [ringbuff_get_free] is [size - 1], and this holds again after
    any of init, write, read, peek, skip, advance, reset and set_evt_fn. *)
Theorem used_plus_free_invariant (b : ringbuff) :
  rb_ok M b ->
  ringbuff_get_full M (Some b) + ringbuff_get_free M (Some b) = size b - 1 /\
  forall o, op_args_ok o ->
    exists b', fst (exec_op M o (Some b)) = Some b' /\
      ringbuff_get_full M (Some b') + ringbuff_get_free M (Some b') = size b' - 1.
Proof.
  intros Hok. split.
  - rewrite (get_full_ok b Hok), (get_free_ok b Hok). lia.
  - intros o Ho. destruct (exec_op_ok b o Hok Ho) as (b' & Eb' & Hok').
    exists b'. split; [exact Eb'|].
    rewrite (get_full_ok b' Hok'), (get_free_ok b' Hok'). lia.
Qed.

(** C2: [ringbuff_write] on a handle in use with a data array transfers
    [n = min(btw, free)] bytes and returns [n]; byte [k] of the data goes
    to [w + k] while that is before the physical end, the rest to
    [k - (size - w)] from index 0; the new write index is [(w + n) mod size]
    (0 when it lands on [size]); no other byte changes and one WRITE
    notification of [n] is sent.  When [n = 0] it returns 0 with the handle
    unchanged and no notification. *)
Theorem write_clamped_transfer (b : ringbuff) (m d : mem) (btw : Z) :
  rb_ok M b -> buff b = Some m -> size_t_ok btw ->
  let n := Z.min btw (ringbuff_get_free M (Some b)) in
  let res := ringbuff_write M (Some b) (Some d) btw in
  res_val res = n /\
  (n = 0 -> res_buf res = Some b /\ res_evts res = []) /\
  (0 < n -> exists m',
     let b' := set_w (set_buff b (Some m')) ((w b + n) mod size b) in
     res_buf res = Some b' /\
     res_evts res = BUF_SEND_EVT b' RINGBUFF_EVT_WRITE n /\
     (w b + n = size b -> RingBuff.w b' = 0) /\
     (forall k, 0 <= k < n -> k < size b - w b -> m' (w b + k) = d k) /\
     (forall k, 0 <= k < n -> size b - w b <= k -> m' (k - (size b - w b)) = d k) /\
     (forall i, ~ (0 <= i < size b /\ (i - w b) mod size b < n) -> m' i = m i)).
Proof.
  intros Hok Hm Hbtw n res. pose proof Hok as (Hv & Hs & Hr & Hw).
  pose proof (used_of_range b Hok) as HU.
  unfold n, res. rewrite (get_free_ok b Hok).
  destruct (write_result b m d btw Hok Hm Hbtw)
    as [(Hn & ->)|(Hn & m' & wp & v & -> & -> & -> & Hc)].
  - cbn. split; [lia|]. split; [intros _; split; reflexivity | intros; lia].
  - cbn [res_val res_buf res_evts]. split; [reflexivity|]. split; [intros; lia|].
    intros _. exists m'. cbv zeta. split; [reflexivity|]. split; [reflexivity|].
    split; [intros E; simpl; rewrite E; apply Z.mod_same; lia|].
    split; [|split].
    + intros k Hk Hk'. rewrite Hc.
      replace (w b + k - w b) with k by lia. rewrite Z.mod_small by lia.
      zcase; zfinish.
    + intros k Hk Hk'. rewrite Hc.
      rewrite mod_sub_cases by lia. zcase; zfinish.
    + intros i Hi. rewrite Hc.
      destruct (Z.leb_spec 0 i); destruct (Z.ltb_spec i (size b));
        destruct (Z.ltb_spec ((i - w b) mod size b) (Z.min btw (size b - 1 - used_of b)));
        simpl; try reflexivity; exfalso; apply Hi; split; lia.
Qed.

(** C4: [ringbuff_get_linear_block_write_length] on a handle in use:
    [size - w - 1] when [w >= r] and [r = 0], [size - w] when [w >= r]
    and [r <> 0], [r - w - 1] when [w < r]. *)
Theorem linear_write_length_cases (b : ringbuff) :
  rb_ok M b ->
  ringbuff_get_linear_block_write_length M (Some b) =
    if r b <=? w b then (if r b =? 0 then size b - w b - 1 else size b - w b)
    else r b - w b - 1.
Proof.
  intros Hok. pose proof Hok as (Hv & Hs & Hr & Hw). unfold size_t_ok in Hs.
  destruct (buf_view_valid b Hv) as (m & _ & Ev).
  unfold ringbuff_get_linear_block_write_length. rewrite Ev. cbv zeta.
  zcase; sz_simpl; lia.
Qed.

(** C5: after any single call of init, write, read, peek, skip, advance,
    reset or set_evt_fn on a handle in use, the handle is still in use:
    [0 <= w < size] and [0 <= r < size]. *)
Theorem indices_in_range_after_op (b : ringbuff) (o : rb_op) :
  rb_ok M b -> op_args_ok o ->
  exists b', fst (exec_op M o (Some b)) = Some b' /\
    BUF_IS_VALID M (Some b') = true /\ 0 <= w b' < size b' /\ 0 <= r b' < size b'.
Proof.
  intros Hok Ho. destruct (exec_op_ok b o Hok Ho) as (b' & Eb' & Hv' & _ & Hr' & Hw').
  exists b'. repeat split; assumption || lia.
Qed.

(** C6: on a handle that is not valid (NULL handle, NULL region, size 0,
    or wrong magic numbers when [RINGBUFF_USE_MAGIC] is set) every entry
    point but init does nothing: the counting calls return 0 with the
    handle and the caller's array unchanged and no notification, the
    linear addresses are NULL, and free, set_evt_fn and reset leave the
    handle as it is. *)
Theorem not_ready_noop (ob : option ringbuff) :
  BUF_IS_VALID M ob = false ->
  ringbuff_is_ready M ob = false /\
  (forall d n, ringbuff_write M ob d n = mk_result ob 0 []) /\
  (forall d n, ringbuff_read M ob d n = mk_result ob (0, d) []) /\
  (forall k d n, ringbuff_peek M ob k d n = mk_result ob (0, d) []) /\
  (forall n, ringbuff_skip M ob n = mk_result ob 0 []) /\
  (forall n, ringbuff_advance M ob n = mk_result ob 0 []) /\
  ringbuff_get_free M ob = 0 /\ ringbuff_get_full M ob = 0 /\
  ringbuff_get_linear_block_read_length M ob = 0 /\
  ringbuff_get_linear_block_write_length M ob = 0 /\
  ringbuff_get_linear_block_read_address M ob = None /\
  ringbuff_get_linear_block_write_address M ob = None /\
  ringbuff_free M ob = ob /\
  (forall f, ringbuff_set_evt_fn M ob f = ob) /\
  ringbuff_reset M ob = mk_result ob tt [].
Proof.
  intros Hv. pose proof (buf_view_invalid ob Hv) as Ev.
  unfold ringbuff_is_ready, ringbuff_write, ringbuff_read, ringbuff_peek, ringbuff_skip,
    ringbuff_advance, ringbuff_get_free, ringbuff_get_full,
    ringbuff_get_linear_block_read_length, ringbuff_get_linear_block_write_length,
    ringbuff_get_linear_block_read_address, ringbuff_get_linear_block_write_address,
    ringbuff_free, ringbuff_set_evt_fn, ringbuff_reset.
  rewrite Ev. repeat split; try assumption; try reflexivity;
    destruct ob as [b|]; try rewrite Hv; reflexivity.
Qed.

(** C3 (as amended): on an empty handle in use ([used = 0]), writing [L]
    bytes with [1 <= L <= free] and then reading [L] bytes returns [L]
    bytes equal to the written ones, in order, also across the physical
    end of the region. *)
Theorem write_read_roundtrip_empty (b : ringbuff) (d o : mem) (L : Z) :
  rb_ok M b -> ringbuff_get_full M (Some b) = 0 ->
  1 <= L <= ringbuff_get_free M (Some b) ->
  exists b' o',
    res_val (ringbuff_write M (Some b) (Some d) L) = L /\
    res_buf (ringbuff_write M (Some b) (Some d) L) = Some b' /\
    res_val (ringbuff_read M (Some b') (Some o) L) = (L, Some o') /\
    forall k, 0 <= k < L -> o' k = d k.
Proof.
  intros Hok Hfull HL. pose proof Hok as (Hv & Hs & Hr & Hw). unfold size_t_ok in Hs.
  destruct (buf_view_valid b Hv) as (m & Em & _).
  rewrite (get_full_ok b Hok) in Hfull. rewrite (get_free_ok b Hok), Hfull in HL.
  assert (Hrw : r b = w b)
    by (unfold used_of in Hfull; destruct (Z.leb_spec (r b) (w b)); lia).
  assert (HL' : size_t_ok L) by (unfold size_t_ok; lia).
  destruct (write_result b m d L Hok Em HL')
    as [(Hn & _)|(_ & m' & wp & v & Ew & -> & Hwp & Hc)]; [rewrite Hfull in Hn; lia|].
  rewrite Hfull, Z.sub_0_r in Hc, Hwp, Ew.
  replace (Z.min L (size b - 1)) with L in Hc, Hwp, Ew by lia.
  set (b' := set_w (set_buff b (Some m')) wp).
  assert (Hwp' : 0 <= wp < size b) by (rewrite Hwp; apply Z.mod_pos_bound; lia).
  assert (Hok' : rb_ok M b').
  { split; [unfold b'; rewrite valid_set_w, (valid_set_buff b m m' Em); exact Hv|].
    simpl. unfold size_t_ok. repeat split; lia. }
  assert (Hu' : used_of b' = L).
  { unfold used_of, b'; simpl. rewrite Hwp, Hrw, mod_add_cases by lia. zcase; lia. }
  destruct (read_result b' m' o L Hok' eq_refl HL')
    as [(Hn & _)|(_ & o' & rp & v' & Er & -> & _ & Hc')]; [rewrite Hu' in Hn; lia|].
  exists b', o'. rewrite Ew. cbn [res_val res_buf].
  split; [reflexivity|]. split; [reflexivity|].
  rewrite Er. cbn [res_val]. split; [rewrite Hu', Z.min_id; reflexivity|].
  intros k Hk. rewrite Hc', Hu', Z.min_id. unfold b'; simpl.
  destruct (Z.leb_spec 0 k); [|lia]. destruct (Z.ltb_spec k L); [|lia]. simpl.
  rewrite Hc, Hrw, (mod_add_cases (w b) k (size b)) by lia.
  destruct (Z.ltb_spec (w b + k) (size b));
    rewrite mod_sub_cases by lia; zcase; zfinish.
Qed.

(** C7: [ringbuff_skip] on a handle in use (a region of at most
    [PTRDIFF_MAX] bytes) moves only the read index, by
    [n = min(len, used)] modulo [size], returns [n], and leaves
    [used - n] bytes in use: it never passes the write index. *)
Theorem skip_advances_read_index (b : ringbuff) (len : Z) :
  rb_ok M b -> size_t_ok len -> size b <= PTRDIFF_MAX ->
  let n := Z.min len (ringbuff_get_full M (Some b)) in
  let res := ringbuff_skip M (Some b) len in
  res_val res = n /\
  res_buf res = Some (set_r b ((r b + n) mod size b)) /\
  ringbuff_get_full M (res_buf res) = ringbuff_get_full M (Some b) - n.
Proof.
  intros Hok Hlen HP n res. pose proof Hok as (Hv & Hs & Hr & Hw).
  pose proof (used_of_range b Hok) as HU. unfold size_t_ok in Hs.
  unfold n, res. rewrite (get_full_ok b Hok).
  destruct (skip_result b len Hok Hlen) as [(E0 & ->)|(E0 & rp & -> & Hrp & Hrp')].
  - subst len. cbn [res_val res_buf].
    replace (Z.min 0 (used_of b)) with 0 by lia.
    rewrite Z.add_0_r, Z.mod_small by lia.
    split; [reflexivity|]. split; [destruct b; reflexivity|].
    rewrite (get_full_ok b Hok). lia.
  - cbn [res_val res_buf]. rewrite (Hrp' HP).
    split; [reflexivity|]. split; [reflexivity|].
    assert (Hok' : rb_ok M (set_r b ((r b + Z.min len (used_of b)) mod size b))).
    { split; [rewrite valid_set_r; exact Hv|]. simpl. rewrite <- (Hrp' HP).
      repeat split; lia. }
    rewrite (get_full_ok _ Hok'). unfold used_of at 1. simpl.
    unfold size_t_ok in Hlen. rewrite mod_add_cases by lia.
    unfold used_of in *. destruct (Z.leb_spec (r b) (w b)); zcase; lia.
Qed.

(** C8: [ringbuff_peek] on a handle in use hands the handle back
    unchanged (so [used] and [free] are unchanged) and sends no
    notification; it returns 0 when [skip_count >= used]; with
    [skip_count = 0] it returns the same count and the same bytes as a
    [ringbuff_read] of the same length would. *)
Theorem peek_observational (b : ringbuff) (k btp len : Z) (d : option mem) (o1 o2 : mem) :
  rb_ok M b -> size_t_ok len ->
  res_buf (ringbuff_peek M (Some b) k d btp) = Some b /\
  ringbuff_get_full M (res_buf (ringbuff_peek M (Some b) k d btp)) = ringbuff_get_full M (Some b) /\
  ringbuff_get_free M (res_buf (ringbuff_peek M (Some b) k d btp)) = ringbuff_get_free M (Some b) /\
  res_evts (ringbuff_peek M (Some b) k d btp) = [] /\
  (ringbuff_get_full M (Some b) <= k -> fst (res_val (ringbuff_peek M (Some b) k d btp)) = 0) /\
  exists n o1' o2',
    res_val (ringbuff_peek M (Some b) 0 (Some o1) len) = (n, Some o1') /\
    res_val (ringbuff_read M (Some b) (Some o2) len) = (n, Some o2') /\
    forall i, 0 <= i < n -> o1' i = o2' i.
Proof.
  intros Hok Hlen. pose proof Hok as (Hv & Hs & Hr & Hw).
  destruct (buf_view_valid b Hv) as (m & Em & Ev).
  destruct (peek_frame (Some b) k d btp) as [Eb Ee]. rewrite Eb.
  split; [reflexivity|]. split; [reflexivity|]. split; [reflexivity|]. split; [exact Ee|].
  split.
  { intros Hk. unfold ringbuff_peek. rewrite Ev.
    destruct d as [d|]; [|reflexivity].
    destruct (btp =? 0); [reflexivity|].
    rewrite Z.geb_leb. destruct (Z.leb_spec (ringbuff_get_full M (Some b)) k); [reflexivity|lia]. }
  destruct (peek0_result b m o1 len Hok Em Hlen) as (o1' & v & Ep & -> & Hp).
  rewrite Ep. cbn [res_val].
  destruct (read_result b m o2 len Hok Em Hlen)
    as [(Hn & ->)|(_ & o2' & rp & v' & Er & -> & _ & Hc)].
  - exists 0, o1', o2. cbn [res_val]. rewrite Hn.
    split; [reflexivity|]. split; [reflexivity|]. intros; lia.
  - exists (Z.min len (used_of b)), o1', o2'. rewrite Er. cbn [res_val].
    split; [reflexivity|]. split; [reflexivity|].
    intros i Hi. rewrite Hp, Hc.
    destruct (Z.leb_spec 0 i); [|lia]. destruct (Z.ltb_spec i (Z.min len (used_of b))); [|lia].
    reflexivity.
Qed.

Lemma buf_view_some (ob : option ringbuff) (b : ringbuff) (m : mem) :
  buf_view M ob = Some (b, m) -> ob = Some b.
Proof.
  unfold buf_view. destruct ob as [b0|]; [|discriminate].
  destruct (buff b0); [|discriminate].
  destruct (BUF_IS_VALID M (Some b0)); [|discriminate]. congruence.
Qed.

(** Without a callback, no entry point but [ringbuff_set_evt_fn]
    installs one or sends a notification. *)
Lemma exec_op_no_cb (o : rb_op) (ob : option ringbuff) :
  no_cb ob -> (forall g, o <> OpSetEvtFn g) ->
  no_cb (fst (exec_op M o ob)) /\ snd (exec_op M o ob) = [].
Proof.
  intros Hno Ho.
  destruct o as [p n|d n|d n|k d n|n|n| |f]; cbn [exec_op fst snd].
  - unfold ringbuff_init. destruct ob as [b|], p as [p|]; try (split; [exact Hno|reflexivity]).
    destruct (n =? 0); [split; [exact Hno|reflexivity]|].
    destruct M; split; reflexivity.
  - unfold ringbuff_write.
    destruct (buf_view M ob) as [[b m]|] eqn:E; [|split; [exact Hno|reflexivity]].
    apply buf_view_some in E. subst ob. simpl in Hno.
    destruct d as [d|]; [|split; [exact Hno|reflexivity]].
    repeat match goal with |- context [if ?c then _ else _] => destruct c end;
      cbn; unfold BUF_SEND_EVT; simpl; rewrite ?Hno; split; reflexivity.
  - unfold ringbuff_read.
    destruct (buf_view M ob) as [[b m]|] eqn:E; [|split; [exact Hno|reflexivity]].
    apply buf_view_some in E. subst ob. simpl in Hno.
    destruct d as [d|]; [|split; [exact Hno|reflexivity]].
    repeat match goal with |- context [if ?c then _ else _] => destruct c end;
      cbn; unfold BUF_SEND_EVT; simpl; rewrite ?Hno; split; reflexivity.
  - destruct (peek_frame ob k d n) as [-> ->]. split; [exact Hno|reflexivity].
  - unfold ringbuff_skip.
    destruct (buf_view M ob) as [[b m]|] eqn:E; [|split; [exact Hno|reflexivity]].
    apply buf_view_some in E. subst ob. simpl in Hno.
    destruct (n =? 0); [split; [exact Hno|reflexivity]|].
    cbn; unfold BUF_SEND_EVT; simpl; rewrite Hno; split; reflexivity.
  - unfold ringbuff_advance.
    destruct (buf_view M ob) as [[b m]|] eqn:E; [|split; [exact Hno|reflexivity]].
    apply buf_view_some in E. subst ob. simpl in Hno.
    destruct (n =? 0); [split; [exact Hno|reflexivity]|].
    cbn; unfold BUF_SEND_EVT; simpl; rewrite Hno; split; reflexivity.
  - unfold ringbuff_reset. destruct ob as [b|]; [|split; [exact Hno|reflexivity]].
    simpl in Hno. destruct (BUF_IS_VALID M (Some b)); [|split; [exact Hno|reflexivity]].
    cbn; unfold BUF_SEND_EVT; simpl; rewrite Hno; split; reflexivity.
  - exfalso. exact (Ho f eq_refl).
Qed.

Lemma exec_ops_no_cb (os : list rb_op) (ob : option ringbuff) :
  no_cb ob -> (forall o, In o os -> forall g, o <> OpSetEvtFn g) ->
  snd (exec_ops M os ob) = [].
Proof.
  revert ob. induction os as [|o os IH]; intros ob Hno Hos; [reflexivity|].
  simpl. destruct (exec_op M o ob) as [ob1 e1] eqn:E.
  destruct (exec_op_no_cb o ob Hno (Hos o (or_introl eq_refl))) as [H1 H2].
  rewrite E in H1, H2. simpl in H1, H2. subst e1.
  destruct (exec_ops M os ob1) as [ob2 e2] eqn:E2.
  simpl. change e2 with (snd (ob2, e2)). rewrite <- E2.
  apply IH; [exact H1|]. intros o' Hin. apply Hos. right. exact Hin.
Qed.

(** C9: [ringbuff_init] zeroes the whole struct before setting the region
    and size: re-initialising a handle on which [ringbuff_set_evt_fn] had
    installed a callback leaves no callback, both indices 0, and any
    later calls that do not install a callback again send no
    notification. *)
Theorem reinit_clears_evt_fn (b : ringbuff) (f : Z) (p : mem) (n : Z) (os : list rb_op) :
  rb_ok M b -> 0 < n < SIZE_T_MOD ->
  (forall o, In o os -> forall g, o <> OpSetEvtFn g) ->
  let ob1 := ringbuff_set_evt_fn M (Some b) (Some f) in
  (exists b1, ob1 = Some b1 /\ evt_fn b1 = Some f) /\
  exists b2, fst (ringbuff_init M ob1 (Some p) n) = Some b2 /\
    evt_fn b2 = None /\ buff b2 = Some p /\ size b2 = n /\ r b2 = 0 /\ w b2 = 0 /\
    snd (exec_ops M os (Some b2)) = [].
Proof.
  intros Hok Hn Hos ob1. pose proof Hok as (Hv & _).
  unfold ob1, ringbuff_set_evt_fn. rewrite Hv. split.
  - eexists. split; reflexivity.
  - unfold ringbuff_init. destruct (Z.eqb_spec n 0); [lia|].
    eexists. split; [reflexivity|].
    do 5 (split; [destruct M; reflexivity|]).
    apply exec_ops_no_cb; [destruct M; reflexivity | exact Hos].
Qed.

(** C10: with a callback installed on a handle in use, [ringbuff_skip]
    with [len > 0] on an empty buffer and [ringbuff_advance] with
    [len > 0] on a full one return 0 but still call the callback with a
    count of 0 (READ, resp. WRITE event); [ringbuff_write] and
    [ringbuff_read] whose request is clamped to 0 return 0 without any
    call. *)
Theorem zero_count_notifications (b : ringbuff) (f : Z) (len : Z) (d : mem) :
  rb_ok M b -> evt_fn b = Some f -> size_t_ok len ->
  (0 < len -> ringbuff_get_full M (Some b) = 0 ->
   ringbuff_skip M (Some b) len = mk_result (Some b) 0 [mk_event f RINGBUFF_EVT_READ 0]) /\
  (0 < len -> ringbuff_get_free M (Some b) = 0 ->
   ringbuff_advance M (Some b) len = mk_result (Some b) 0 [mk_event f RINGBUFF_EVT_WRITE 0]) /\
  (Z.min len (ringbuff_get_free M (Some b)) = 0 ->
   ringbuff_write M (Some b) (Some d) len = mk_result (Some b) 0 []) /\
  (Z.min len (ringbuff_get_full M (Some b)) = 0 ->
   ringbuff_read M (Some b) (Some d) len = mk_result (Some b) (0, Some d) []).
Proof.
  intros Hok Hf Hlen. pose proof Hok as (Hv & Hs & Hr & Hw).
  unfold size_t_ok in Hs, Hlen.
  destruct (buf_view_valid b Hv) as (m & Em & Ev).
  split; [|split; [|split]].
  - intros Hl Hfull. unfold ringbuff_skip. rewrite Ev, Hfull, BUF_MIN_min.
    destruct (Z.eqb_spec len 0); [lia|].
    replace (Z.min len 0) with 0 by lia. rewrite Z.add_0_r, sz_small by lia.
    rewrite Z.geb_leb. destruct (Z.leb_spec (size b) (r b)); [lia|].
    unfold BUF_SEND_EVT. simpl. rewrite Hf. destruct b; reflexivity.
  - intros Hl Hfree. unfold ringbuff_advance. rewrite Ev, Hfree, BUF_MIN_min.
    destruct (Z.eqb_spec len 0); [lia|].
    replace (Z.min len 0) with 0 by lia. rewrite Z.add_0_r, sz_small by lia.
    rewrite Z.geb_leb. destruct (Z.leb_spec (size b) (w b)); [lia|].
    unfold BUF_SEND_EVT. simpl. rewrite Hf. destruct b; reflexivity.
  - intros H0. unfold ringbuff_write. rewrite Ev.
    destruct (len =? 0); [reflexivity|]. cbv zeta.
    rewrite BUF_MIN_min, Z.min_comm, H0. reflexivity.
  - intros H0. unfold ringbuff_read. rewrite Ev.
    destruct (len =? 0); [reflexivity|]. cbv zeta.
    rewrite BUF_MIN_min, Z.min_comm, H0. reflexivity.
Qed.

End Proofs.

(** ** Concrete instances *)

Ltac rb_ok_tac :=
  unfold rb_ok, size_t_ok; rewrite SIZE_T_MOD_val; simpl;
  repeat split; try reflexivity; lia.

Example ex_scenario :
  let b0 := fst (ringbuff_init true (Some ex_rb) (Some ex_zero) 4) in
  let s1 := ringbuff_write true b0 (Some ex_mem_A) 2 in
  let s2 := ringbuff_write true (res_buf s1) (Some ex_data_B) 3 in
  res_val s1 = 2 /\ res_val s2 = 1 /\ ringbuff_get_free true (res_buf s2) = 0 /\
  res_evts s2 = [].
Proof. vm_compute. repeat split; reflexivity. Defined.

Lemma used_plus_free_invariant_witness :
  rb_ok true ex_rb /\
  ringbuff_get_full true (Some ex_rb) + ringbuff_get_free true (Some ex_rb) = size ex_rb - 1 /\
  forall o, op_args_ok o ->
    exists b', fst (exec_op true o (Some ex_rb)) = Some b' /\
      ringbuff_get_full true (Some b') + ringbuff_get_free true (Some b') = size b' - 1.
Proof.
  assert (H : rb_ok true ex_rb) by rb_ok_tac.
  split; [exact H | exact (used_plus_free_invariant true ex_rb H)].
Defined.

Lemma write_clamped_transfer_witness :
  rb_ok true ex_rb /\ buff ex_rb = Some ex_zero /\ size_t_ok 5 /\
  let n := Z.min 5 (ringbuff_get_free true (Some ex_rb)) in
  let res := ringbuff_write true (Some ex_rb) (Some ex_data) 5 in
  res_val res = n /\
  (n = 0 -> res_buf res = Some ex_rb /\ res_evts res = []) /\
  (0 < n -> exists m',
     let b' := set_w (set_buff ex_rb (Some m')) ((w ex_rb + n) mod size ex_rb) in
     res_buf res = Some b' /\
     res_evts res = BUF_SEND_EVT b' RINGBUFF_EVT_WRITE n /\
     (w ex_rb + n = size ex_rb -> RingBuff.w b' = 0) /\
     (forall k, 0 <= k < n -> k < size ex_rb - w ex_rb -> m' (w ex_rb + k) = ex_data k) /\
     (forall k, 0 <= k < n -> size ex_rb - w ex_rb <= k ->
        m' (k - (size ex_rb - w ex_rb)) = ex_data k) /\
     (forall i, ~ (0 <= i < size ex_rb /\ (i - w ex_rb) mod size ex_rb < n) -> m' i = ex_zero i)).
Proof.
  assert (H : rb_ok true ex_rb) by rb_ok_tac.
  assert (Hs : size_t_ok 5) by (unfold size_t_ok; rewrite SIZE_T_MOD_val; lia).
  split; [exact H|]. split; [reflexivity|]. split; [exact Hs|].
  exact (write_clamped_transfer true ex_rb ex_zero ex_data 5 H eq_refl Hs).
Defined.

(** C3 as stated fails: on a handle holding "A", writing "B" (1 byte, 2
    free) and then reading 1 byte returns "A". *)
Lemma write_read_roundtrip_cex :
  ~ (forall (b : ringbuff) (d o : mem) (L : Z),
       rb_ok true b -> 1 <= L <= ringbuff_get_free true (Some b) ->
       exists b' o',
         res_val (ringbuff_write true (Some b) (Some d) L) = L /\
         res_buf (ringbuff_write true (Some b) (Some d) L) = Some b' /\
         res_val (ringbuff_read true (Some b') (Some o) L) = (L, Some o') /\
         forall k, 0 <= k < L -> o' k = d k).
Proof.
  intros H.
  assert (Hok : rb_ok true ex_rb_A) by rb_ok_tac.
  assert (Hf : 1 <= 1 <= ringbuff_get_free true (Some ex_rb_A)) by (vm_compute; split; discriminate).
  destruct (H ex_rb_A ex_data_B ex_zero 1 Hok Hf) as (b' & o' & _ & Hb & Hr & Hk).
  vm_compute in Hb. injection Hb as <-.
  vm_compute in Hr. injection Hr as Ho.
  specialize (Hk 0 ltac:(lia)). rewrite <- Ho in Hk. vm_compute in Hk. discriminate Hk.
Qed.

Lemma write_read_roundtrip_empty_witness :
  rb_ok true ex_rb_empty /\ ringbuff_get_full true (Some ex_rb_empty) = 0 /\
  1 <= 5 <= ringbuff_get_free true (Some ex_rb_empty) /\
  exists b' o',
    res_val (ringbuff_write true (Some ex_rb_empty) (Some ex_data) 5) = 5 /\
    res_buf (ringbuff_write true (Some ex_rb_empty) (Some ex_data) 5) = Some b' /\
    res_val (ringbuff_read true (Some b') (Some ex_zero) 5) = (5, Some o') /\
    forall k, 0 <= k < 5 -> o' k = ex_data k.
Proof.
  assert (H : rb_ok true ex_rb_empty) by rb_ok_tac.
  assert (H0 : ringbuff_get_full true (Some ex_rb_empty) = 0) by reflexivity.
  assert (H1 : 1 <= 5 <= ringbuff_get_free true (Some ex_rb_empty)) by (vm_compute; split; discriminate).
  split; [exact H|]. split; [exact H0|]. split; [exact H1|].
  exact (write_read_roundtrip_empty true ex_rb_empty ex_data ex_zero 5 H H0 H1).
Defined.

Lemma linear_write_length_cases_witness :
  rb_ok true ex_rb /\
  ringbuff_get_linear_block_write_length true (Some ex_rb) =
    if r ex_rb <=? w ex_rb then (if r ex_rb =? 0 then size ex_rb - w ex_rb - 1 else size ex_rb - w ex_rb)
    else r ex_rb - w ex_rb - 1.
Proof.
  assert (H : rb_ok true ex_rb) by rb_ok_tac.
  split; [exact H | exact (linear_write_length_cases true ex_rb H)].
Defined.

Lemma indices_in_range_after_op_witness :
  rb_ok true ex_rb /\ op_args_ok (OpWrite (Some ex_data) 5) /\
  exists b', fst (exec_op true (OpWrite (Some ex_data) 5) (Some ex_rb)) = Some b' /\
    BUF_IS_VALID true (Some b') = true /\ 0 <= w b' < size b' /\ 0 <= r b' < size b'.
Proof.
  assert (H : rb_ok true ex_rb) by rb_ok_tac.
  assert (Ho : op_args_ok (OpWrite (Some ex_data) 5))
    by (simpl; unfold size_t_ok; rewrite SIZE_T_MOD_val; lia).
  split; [exact H|]. split; [exact Ho|].
  exact (indices_in_range_after_op true ex_rb _ H Ho).
Defined.

Lemma not_ready_noop_witness :
  BUF_IS_VALID true None = false /\
  ringbuff_is_ready true None = false /\
  (forall d n, ringbuff_write true None d n = mk_result None 0 []) /\
  (forall d n, ringbuff_read true None d n = mk_result None (0, d) []) /\
  (forall k d n, ringbuff_peek true None k d n = mk_result None (0, d) []) /\
  (forall n, ringbuff_skip true None n = mk_result None 0 []) /\
  (forall n, ringbuff_advance true None n = mk_result None 0 []) /\
  ringbuff_get_free true None = 0 /\ ringbuff_get_full true None = 0 /\
  ringbuff_get_linear_block_read_length true None = 0 /\
  ringbuff_get_linear_block_write_length true None = 0 /\
  ringbuff_get_linear_block_read_address true None = None /\
  ringbuff_get_linear_block_write_address true None = None /\
  ringbuff_free true None = None /\
  (forall f, ringbuff_set_evt_fn true None f = None) /\
  ringbuff_reset true None = mk_result None tt [].
Proof.
  split; [reflexivity | exact (not_ready_noop true None eq_refl)].
Defined.

Lemma skip_advances_read_index_witness :
  rb_ok true ex_rb /\ size_t_ok 9 /\ size ex_rb <= PTRDIFF_MAX /\
  let n := Z.min 9 (ringbuff_get_full true (Some ex_rb)) in
  let res := ringbuff_skip true (Some ex_rb) 9 in
  res_val res = n /\
  res_buf res = Some (set_r ex_rb ((r ex_rb + n) mod size ex_rb)) /\
  ringbuff_get_full true (res_buf res) = ringbuff_get_full true (Some ex_rb) - n.
Proof.
  assert (H : rb_ok true ex_rb) by rb_ok_tac.
  assert (Hs : size_t_ok 9) by (unfold size_t_ok; rewrite SIZE_T_MOD_val; lia).
  assert (Hp : size ex_rb <= PTRDIFF_MAX) by (simpl; unfold PTRDIFF_MAX; lia).
  split; [exact H|]. split; [exact Hs|]. split; [exact Hp|].
  exact (skip_advances_read_index true ex_rb 9 H Hs Hp).
Defined.

Lemma peek_observational_witness :
  rb_ok true ex_rb /\ size_t_ok 3 /\
  res_buf (ringbuff_peek true (Some ex_rb) 1 (Some ex_zero) 2) = Some ex_rb /\
  ringbuff_get_full true (res_buf (ringbuff_peek true (Some ex_rb) 1 (Some ex_zero) 2))
    = ringbuff_get_full true (Some ex_rb) /\
  ringbuff_get_free true (res_buf (ringbuff_peek true (Some ex_rb) 1 (Some ex_zero) 2))
    = ringbuff_get_free true (Some ex_rb) /\
  res_evts (ringbuff_peek true (Some ex_rb) 1 (Some ex_zero) 2) = [] /\
  (ringbuff_get_full true (Some ex_rb) <= 1 ->
   fst (res_val (ringbuff_peek true (Some ex_rb) 1 (Some ex_zero) 2)) = 0) /\
  exists n o1' o2',
    res_val (ringbuff_peek true (Some ex_rb) 0 (Some ex_zero) 3) = (n, Some o1') /\
    res_val (ringbuff_read true (Some ex_rb) (Some ex_data) 3) = (n, Some o2') /\
    forall i, 0 <= i < n -> o1' i = o2' i.
Proof.
  assert (H : rb_ok true ex_rb) by rb_ok_tac.
  assert (Hs : size_t_ok 3) by (unfold size_t_ok; rewrite SIZE_T_MOD_val; lia).
  split; [exact H|]. split; [exact Hs|].
  exact (peek_observational true ex_rb 1 2 3 (Some ex_zero) ex_zero ex_data H Hs).
Defined.

Lemma reinit_clears_evt_fn_witness :
  rb_ok true ex_rb /\ 0 < 16 < SIZE_T_MOD /\
  (forall o, In o [OpWrite (Some ex_data) 5; OpSkip 3] -> forall g, o <> OpSetEvtFn g) /\
  let ob1 := ringbuff_set_evt_fn true (Some ex_rb) (Some 9) in
  (exists b1, ob1 = Some b1 /\ evt_fn b1 = Some 9) /\
  exists b2, fst (ringbuff_init true ob1 (Some ex_zero) 16) = Some b2 /\
    evt_fn b2 = None /\ buff b2 = Some ex_zero /\ size b2 = 16 /\ r b2 = 0 /\ w b2 = 0 /\
    snd (exec_ops true [OpWrite (Some ex_data) 5; OpSkip 3] (Some b2)) = [].
Proof.
  assert (H : rb_ok true ex_rb) by rb_ok_tac.
  assert (Hn : 0 < 16 < SIZE_T_MOD) by (rewrite SIZE_T_MOD_val; lia).
  assert (Ho : forall o, In o [OpWrite (Some ex_data) 5; OpSkip 3] -> forall g, o <> OpSetEvtFn g)
    by (intros o Hin g; simpl in Hin; destruct Hin as [<-|[<-|[]]]; discriminate).
  split; [exact H|]. split; [exact Hn|]. split; [exact Ho|].
  exact (reinit_clears_evt_fn true ex_rb 9 ex_zero 16 _ H Hn Ho).
Defined.

Lemma zero_count_notifications_witness :
  rb_ok true ex_rb_empty /\ evt_fn ex_rb_empty = Some 7 /\ size_t_ok 4 /\
  (0 < 4 -> ringbuff_get_full true (Some ex_rb_empty) = 0 ->
   ringbuff_skip true (Some ex_rb_empty) 4
     = mk_result (Some ex_rb_empty) 0 [mk_event 7 RINGBUFF_EVT_READ 0]) /\
  (0 < 4 -> ringbuff_get_free true (Some ex_rb_empty) = 0 ->
   ringbuff_advance true (Some ex_rb_empty) 4
     = mk_result (Some ex_rb_empty) 0 [mk_event 7 RINGBUFF_EVT_WRITE 0]) /\
  (Z.min 4 (ringbuff_get_free true (Some ex_rb_empty)) = 0 ->
   ringbuff_write true (Some ex_rb_empty) (Some ex_data) 4 = mk_result (Some ex_rb_empty) 0 []) /\
  (Z.min 4 (ringbuff_get_full true (Some ex_rb_empty)) = 0 ->
   ringbuff_read true (Some ex_rb_empty) (Some ex_data) 4
     = mk_result (Some ex_rb_empty) (0, Some ex_data) []).
Proof.
  assert (H : rb_ok true ex_rb_empty) by rb_ok_tac.
  assert (Hs : size_t_ok 4) by (unfold size_t_ok; rewrite SIZE_T_MOD_val; lia).
  split; [exact H|]. split; [reflexivity|]. split; [exact Hs|].
  exact (zero_count_notifications true ex_rb_empty 7 4 ex_data H eq_refl Hs).
Defined.

Example ex_skip_empty_notifies :
  ringbuff_skip true (Some ex_rb_empty) 4
    = mk_result (Some ex_rb_empty) 0 [mk_event 7 RINGBUFF_EVT_READ 0].
Proof. reflexivity. Qed.

(** ** Further properties of the engine and its callers *)

Section MoreProofs.

Variable M : bool.

Lemma linear_read_length_ok (b : ringbuff) :
  rb_ok M b ->
  ringbuff_get_linear_block_read_length M (Some b) =
    if r b <? w b then w b - r b else if w b <? r b then size b - r b else 0.
Proof.
  intros Hok. pose proof Hok as (Hv & Hs & Hr & Hw). unfold size_t_ok in Hs.
  destruct (buf_view_valid M b Hv) as (m & _ & Ev).
  unfold ringbuff_get_linear_block_read_length. rewrite Ev. cbv zeta.
  zcase; sz_simpl; lia.
Qed.

Lemma linear_write_length_ok (b : ringbuff) :
  rb_ok M b ->
  ringbuff_get_linear_block_write_length M (Some b) =
    if r b <=? w b then (if r b =? 0 then size b - w b - 1 else size b - w b)
    else r b - w b - 1.
Proof.
  intros Hok. pose proof Hok as (Hv & Hs & Hr & Hw). unfold size_t_ok in Hs.
  destruct (buf_view_valid M b Hv) as (m & _ & Ev).
  unfold ringbuff_get_linear_block_write_length. rewrite Ev. cbv zeta.
  zcase; sz_simpl; lia.
Qed.

(** [ringbuff_skip] of at most the bytes in use that stays before the
    physical end: no size_t wrap-around. *)
Lemma skip_small (b : ringbuff) (len : Z) :
  rb_ok M b -> 0 <= len <= used_of b -> r b + len <= size b ->
  ringbuff_skip M (Some b) len =
    if len =? 0 then mk_result (Some b) 0 []
    else mk_result (Some (set_r b ((r b + len) mod size b))) len
                   (BUF_SEND_EVT (set_r b ((r b + len) mod size b)) RINGBUFF_EVT_READ len).
Proof.
  intros Hok Hl Hend. pose proof Hok as (Hv & Hs & Hr & Hw). unfold size_t_ok in Hs.
  destruct (buf_view_valid M b Hv) as (m & _ & Ev).
  unfold ringbuff_skip. rewrite Ev, (get_full_ok M b Hok), BUF_MIN_min.
  destruct (Z.eqb_spec len 0); [reflexivity|].
  replace (Z.min len (used_of b)) with len by lia.
  sz_simpl. rewrite Z.geb_leb. destruct (Z.leb_spec (size b) (r b + len)).
  - assert (E : r b + len = size b) by lia. rewrite E, Z.mod_same, Z.sub_diag by lia.
    reflexivity.
  - rewrite Z.mod_small by lia. reflexivity.
Qed.

(** [ringbuff_advance] of at most the free bytes that stays before the
    physical end. *)
Lemma advance_small (b : ringbuff) (len : Z) :
  rb_ok M b -> 0 <= len <= size b - 1 - used_of b -> w b + len <= size b ->
  ringbuff_advance M (Some b) len =
    if len =? 0 then mk_result (Some b) 0 []
    else mk_result (Some (set_w b ((w b + len) mod size b))) len
                   (BUF_SEND_EVT (set_w b ((w b + len) mod size b)) RINGBUFF_EVT_WRITE len).
Proof.
  intros Hok Hl Hend. pose proof Hok as (Hv & Hs & Hr & Hw). unfold size_t_ok in Hs.
  destruct (buf_view_valid M b Hv) as (m & _ & Ev).
  unfold ringbuff_advance. rewrite Ev, (get_free_ok M b Hok), BUF_MIN_min.
  destruct (Z.eqb_spec len 0); [reflexivity|].
  replace (Z.min len (size b - 1 - used_of b)) with len by lia.
  sz_simpl. rewrite Z.geb_leb. destruct (Z.leb_spec (size b) (w b + len)).
  - assert (E : w b + len = size b) by lia. rewrite E, Z.mod_same, Z.sub_diag by lia.
    reflexivity.
  - rewrite Z.mod_small by lia. reflexivity.
Qed.

Lemma rb_ok_set_r (b : ringbuff) (x : Z) :
  rb_ok M b -> 0 <= x < size b -> rb_ok M (set_r b x).
Proof.
  intros (Hv & Hs & Hr & Hw) Hx. split; [rewrite valid_set_r; exact Hv|].
  unfold size_t_ok in *. simpl. repeat split; lia.
Qed.

Lemma rb_ok_set_w (b : ringbuff) (x : Z) :
  rb_ok M b -> 0 <= x < size b -> rb_ok M (set_w b x).
Proof.
  intros (Hv & Hs & Hr & Hw) Hx. split; [rewrite valid_set_w; exact Hv|].
  unfold size_t_ok in *. simpl. repeat split; lia.
Qed.

Lemma rb_ok_set_buff (b : ringbuff) (m m' : mem) :
  rb_ok M b -> buff b = Some m -> rb_ok M (set_buff b (Some m')).
Proof.
  intros (Hv & Hs & Hr & Hw) Em. split; [rewrite (valid_set_buff M b m m' Em); exact Hv|].
  unfold size_t_ok in *. simpl. repeat split; lia.
Qed.

(** X1: on a handle in use, [ringbuff_get_linear_block_read_length] is a
    run of bytes in use that ends at or before the physical end of the
    region, and it is 0 only when the buffer is empty. *)
Theorem linear_read_length_bounds (b : ringbuff) :
  rb_ok M b ->
  let len := ringbuff_get_linear_block_read_length M (Some b) in
  0 <= len /\ r b + len <= size b /\ len <= ringbuff_get_full M (Some b) /\
  (len = 0 <-> ringbuff_get_full M (Some b) = 0).
Proof.
  intros Hok len. pose proof Hok as (Hv & Hs & Hr & Hw).
  unfold len. rewrite (linear_read_length_ok b Hok), (get_full_ok M b Hok).
  unfold used_of. zcase; lia.
Qed.

(** X2: reading the linear block in place and then calling
    [ringbuff_skip] on its length (the zero-copy path of the CM7 loop)
    sees the bytes [ringbuff_read] of that length would copy out, and
    leaves the handle and the notifications exactly as that read does. *)
Theorem linear_read_then_skip (b : ringbuff) (m o : mem) :
  rb_ok M b -> buff b = Some m ->
  let len := ringbuff_get_linear_block_read_length M (Some b) in
  ringbuff_get_linear_block_read_address M (Some b) = Some (m, r b) /\
  res_buf (ringbuff_skip M (Some b) len) = res_buf (ringbuff_read M (Some b) (Some o) len) /\
  res_evts (ringbuff_skip M (Some b) len) = res_evts (ringbuff_read M (Some b) (Some o) len) /\
  exists o', res_val (ringbuff_read M (Some b) (Some o) len) = (len, Some o') /\
    forall k, 0 <= k < len -> o' k = m (r b + k).
Proof.
  intros Hok Em len. pose proof Hok as (Hv & Hs & Hr & Hw). unfold size_t_ok in Hs.
  destruct (buf_view_valid M b Hv) as (m0 & Em0 & Ev). rewrite Em in Em0. injection Em0 as <-.
  assert (HL : 0 <= len /\ r b + len <= size b /\ len <= used_of b).
  { unfold len. rewrite (linear_read_length_ok b Hok). unfold used_of. zcase; lia. }
  split; [unfold ringbuff_get_linear_block_read_address; rewrite Ev; reflexivity|].
  assert (HLs : size_t_ok len) by (unfold size_t_ok; lia).
  rewrite (skip_small b len Hok ltac:(lia) ltac:(lia)).
  destruct (read_result M b m o len Hok Em HLs)
    as [(Hn & ->)|(Hn & o' & rp & v & -> & -> & -> & Hc)].
  - replace len with 0 by lia. cbn. split; [reflexivity|]. split; [reflexivity|].
    exists o. split; [reflexivity|]. intros; lia.
  - replace (Z.min len (used_of b)) with len in * by lia.
    destruct (Z.eqb_spec len 0); [lia|]. cbn.
    split; [reflexivity|]. split; [reflexivity|].
    exists o'. split; [reflexivity|]. intros k Hk. rewrite Hc.
    destruct (Z.leb_spec 0 k); [|lia]. destruct (Z.ltb_spec k len); [|lia]. simpl.
    rewrite Z.mod_small by lia. reflexivity.
Qed.

(** X3: on a handle in use, [ringbuff_get_linear_block_write_length] is
    a run of free bytes that ends at or before the physical end of the
    region, and it is 0 only when the buffer is full. *)
Theorem linear_write_length_bounds (b : ringbuff) :
  rb_ok M b ->
  let len := ringbuff_get_linear_block_write_length M (Some b) in
  0 <= len /\ w b + len <= size b /\ len <= ringbuff_get_free M (Some b) /\
  (len = 0 <-> ringbuff_get_free M (Some b) = 0).
Proof.
  intros Hok len. pose proof Hok as (Hv & Hs & Hr & Hw).
  unfold len. rewrite (linear_write_length_ok b Hok), (get_free_ok M b Hok).
  unfold used_of. zcase; lia.
Qed.

(** X4: [ringbuff_advance] on a handle in use (a region of at most
    [PTRDIFF_MAX] bytes) moves only the write index, by
    [n = min(len, free)] modulo [size], returns [n], and adds [n] bytes in
    use: it never overruns the read index. *)
Theorem advance_moves_write_index (b : ringbuff) (len : Z) :
  rb_ok M b -> size_t_ok len -> size b <= PTRDIFF_MAX ->
  let n := Z.min len (ringbuff_get_free M (Some b)) in
  let res := ringbuff_advance M (Some b) len in
  res_val res = n /\
  res_buf res = Some (set_w b ((w b + n) mod size b)) /\
  ringbuff_get_full M (res_buf res) = ringbuff_get_full M (Some b) + n /\
  ringbuff_get_free M (res_buf res) = ringbuff_get_free M (Some b) - n.
Proof.
  intros Hok Hlen HP n res. pose proof Hok as (Hv & Hs & Hr & Hw).
  pose proof (used_of_range M b Hok) as HU. unfold size_t_ok in Hs, Hlen.
  unfold n, res. rewrite (get_free_ok M b Hok), (get_full_ok M b Hok).
  destruct (advance_result M b len Hok Hlen) as [(E0 & ->)|(E0 & wp & -> & Hwp & Hwp')].
  - subst len. cbn [res_val res_buf].
    replace (Z.min 0 (size b - 1 - used_of b)) with 0 by lia.
    rewrite Z.add_0_r, Z.mod_small by lia.
    split; [reflexivity|]. split; [destruct b; reflexivity|].
    rewrite (get_full_ok M b Hok), (get_free_ok M b Hok). lia.
  - cbn [res_val res_buf]. rewrite (Hwp' HP).
    split; [reflexivity|]. split; [reflexivity|].
    assert (Hok' : rb_ok M (set_w b ((w b + Z.min len (size b - 1 - used_of b)) mod size b)))
      by (apply rb_ok_set_w; [exact Hok|]; rewrite <- (Hwp' HP); exact Hwp).
    rewrite (get_full_ok M _ Hok'), (get_free_ok M _ Hok'). simpl.
    rewrite mod_add_cases by lia.
    unfold used_of in *. simpl. destruct (Z.leb_spec (r b) (w b)); zcase; lia.
Qed.

(** X5: [ringbuff_reset] on any valid handle, whatever its indices were,
    leaves a handle in use that is empty (used 0, free [size - 1]) with
    the same region, size and callback, and sends one RESET notification
    of count 0. *)
Theorem reset_empties (b : ringbuff) :
  BUF_IS_VALID M (Some b) = true -> size_t_ok (size b) ->
  exists b', ringbuff_reset M (Some b) = mk_result (Some b') tt (BUF_SEND_EVT b' RINGBUFF_EVT_RESET 0) /\
    rb_ok M b' /\ buff b' = buff b /\ size b' = size b /\ evt_fn b' = evt_fn b /\
    ringbuff_get_full M (Some b') = 0 /\ ringbuff_get_free M (Some b') = size b - 1.
Proof.
  intros Hv Hs. unfold ringbuff_reset. rewrite Hv.
  assert (Hpos : 0 < size b).
  { simpl in Hv. destruct (Z.gtb_spec (size b) 0); [lia|]. rewrite andb_false_r in Hv. discriminate. }
  assert (Hok : rb_ok M (set_r (set_w b 0) 0)).
  { split; [rewrite valid_set_r, valid_set_w; exact Hv|]. unfold size_t_ok in *. simpl. repeat split; lia. }
  eexists. split; [reflexivity|]. split; [exact Hok|].
  do 3 (split; [reflexivity|]).
  rewrite (get_full_ok M _ Hok), (get_free_ok M _ Hok). unfold used_of. simpl. split; [reflexivity|lia].
Qed.

(** On an invalid handle every entry point but init leaves the handle
    as it is and calls no callback. *)
Lemma exec_op_invalid (o : rb_op) (ob : option ringbuff) :
  BUF_IS_VALID M ob = false -> (forall p n, o <> OpInit p n) ->
  exec_op M o ob = (ob, []).
Proof.
  intros Hv Ho. pose proof (buf_view_invalid M ob Hv) as Ev.
  destruct o as [p n|d n|d n|k d n|n|n| |f]; cbn [exec_op].
  - exfalso. exact (Ho p n eq_refl).
  - unfold ringbuff_write. rewrite Ev. reflexivity.
  - unfold ringbuff_read. rewrite Ev. reflexivity.
  - destruct (peek_frame M ob k d n) as [-> ->]. reflexivity.
  - unfold ringbuff_skip. rewrite Ev. reflexivity.
  - unfold ringbuff_advance. rewrite Ev. reflexivity.
  - unfold ringbuff_reset. destruct ob as [b|]; [rewrite Hv|]; reflexivity.
  - unfold ringbuff_set_evt_fn. destruct ob as [b|]; [rewrite Hv|]; reflexivity.
Qed.

Lemma free_invalid (ob : option ringbuff) :
  BUF_IS_VALID M (ringbuff_free M ob) = false.
Proof.
  unfold ringbuff_free. destruct ob as [b|]; [|reflexivity].
  destruct (BUF_IS_VALID M (Some b)) eqn:E; [|exact E].
  simpl. rewrite andb_false_r, andb_false_l. reflexivity.
Qed.

(** Run and end of the linear write block of a handle in use. *)
Lemma linear_write_length_le (b : ringbuff) :
  rb_ok M b ->
  let len := ringbuff_get_linear_block_write_length M (Some b) in
  0 <= len /\ w b + len <= size b /\ len <= size b - 1 - used_of b.
Proof.
  intros Hok len. pose proof Hok as (Hv & Hs & Hr & Hw).
  unfold len. rewrite (linear_write_length_ok b Hok). unfold used_of. zcase; lia.
Qed.

(** X6: [ringbuff_free] always leaves a handle that is not ready (its
    region pointer is NULL), and on such a handle any sequence of calls
    that does not re-initialise it changes nothing and calls no
    callback. *)
Theorem free_retires_handle (ob : option ringbuff) (os : list rb_op) :
  (forall o, In o os -> forall p n, o <> OpInit p n) ->
  ringbuff_is_ready M (ringbuff_free M ob) = false /\
  exec_ops M os (ringbuff_free M ob) = (ringbuff_free M ob, []).
Proof.
  intros Hos. pose proof (free_invalid ob) as Hf. split; [exact Hf|].
  generalize dependent (ringbuff_free M ob). intros ob1 Hf.
  induction os as [|o os IH]; [reflexivity|].
  simpl. rewrite (exec_op_invalid o ob1 Hf (Hos o (or_introl eq_refl))).
  rewrite IH; [reflexivity|]. intros o' Hin. apply Hos. right. exact Hin.
Qed.

(** X7: [ringbuff_init] fails (returns 0, handle untouched) exactly on a
    NULL handle, a NULL region or a size of 0; otherwise it returns 1 and
    a ready, empty handle on that region and size: [used = 0],
    [free = size - 1], the whole free space is one linear block, and no
    callback is installed. *)
Theorem init_result (ob : option ringbuff) (p : option mem) (n : Z) :
  size_t_ok n ->
  ((ob = None \/ p = None \/ n = 0) -> ringbuff_init M ob p n = (ob, 0)) /\
  (ob <> None -> p <> None -> n <> 0 ->
   exists b', ringbuff_init M ob p n = (Some b', 1) /\
     rb_ok M b' /\ ringbuff_is_ready M (Some b') = true /\ buff b' = p /\ size b' = n /\
     ringbuff_get_full M (Some b') = 0 /\ ringbuff_get_free M (Some b') = n - 1 /\
     ringbuff_get_linear_block_write_length M (Some b') = n - 1 /\ evt_fn b' = None).
Proof.
  intros Hn. split.
  - intros Hc. unfold ringbuff_init. destruct ob as [b|]; [|reflexivity].
    destruct p as [p|]; [|reflexivity].
    destruct Hc as [Hc|[Hc|Hc]]; try discriminate. subst n. reflexivity.
  - intros Hob Hp Hn0. destruct ob as [b|]; [|congruence]. destruct p as [p|]; [|congruence].
    unfold ringbuff_init. destruct (Z.eqb_spec n 0); [lia|].
    unfold size_t_ok in Hn.
    match goal with |- exists b', (Some ?B, 1) = _ /\ _ =>
      assert (Hok : rb_ok M B) by
        (unfold rb_ok, size_t_ok; destruct M; simpl; rewrite Z.gtb_ltb;
         destruct (Z.ltb_spec 0 n); repeat split; lia) end.
    eexists. split; [reflexivity|]. split; [exact Hok|].
    split; [exact (proj1 Hok)|].
    rewrite (get_full_ok M _ Hok), (get_free_ok M _ Hok), (linear_write_length_ok _ Hok).
    destruct M; unfold used_of; simpl; repeat split; lia.
Qed.

(** X8: the zero-copy write path (store [L] bytes at
    [ringbuff_get_linear_block_write_address], then [ringbuff_advance] by
    [L]) with [1 <= L <=] the linear write length gives the very same
    handle, region contents, return value and notifications as
    [ringbuff_write] of those [L] bytes. *)
Theorem linear_store_advance_is_write (b : ringbuff) (m d : mem) (L : Z) :
  rb_ok M b -> buff b = Some m ->
  1 <= L <= ringbuff_get_linear_block_write_length M (Some b) ->
  ringbuff_advance M (store_linear M (Some b) d L) L = ringbuff_write M (Some b) (Some d) L.
Proof.
  intros Hok Em HL. pose proof Hok as (Hv & Hs & Hr & Hw).
  destruct (buf_view_valid M b Hv) as (m0 & Em0 & Ev). rewrite Em in Em0. injection Em0 as <-.
  pose proof (linear_write_length_le b Hok) as HB. cbv zeta in HB.
  pose proof (used_of_range M b Hok) as HU. unfold size_t_ok in Hs.
  unfold store_linear, ringbuff_get_linear_block_write_address. rewrite Ev. cbv beta iota.
  assert (Hok1 : rb_ok M (set_buff b (Some (memcpy m (w b) d 0 L))))
    by (apply (rb_ok_set_buff b m); assumption).
  rewrite (advance_small _ L Hok1) by (unfold used_of in *; simpl; lia).
  destruct (Z.eqb_spec L 0); [lia|].
  unfold ringbuff_write. rewrite Ev, (get_free_ok M b Hok), !BUF_MIN_min.
  destruct (Z.eqb_spec L 0); [lia|].
  replace (Z.min (size b - 1 - used_of b) L) with L by lia.
  destruct (Z.eqb_spec L 0); [lia|].
  rewrite (sz_small (size b - w b)) by lia.
  replace (Z.min (size b - w b) L) with L by lia.
  rewrite Z.sub_diag, (sz_small 0) by (rewrite SIZE_T_MOD_val; lia).
  cbn [Z.gtb Z.compare]. rewrite Z.add_0_r.
  rewrite (sz_small (w b + L)), (sz_small L) by lia.
  simpl. rewrite Z.geb_leb. destruct (Z.leb_spec (size b) (w b + L)).
  - replace (w b + L) with (size b) by lia. rewrite Z.mod_same by lia. reflexivity.
  - rewrite Z.mod_small by lia. reflexivity.
Qed.

(** X9: [ringbuff_peek] with [skip_count] below the bytes in use, on a
    handle in use (a region of at most [PTRDIFF_MAX] bytes), hands the
    handle back unchanged without notification and copies
    [n = min(btp, used - skip_count)] bytes, byte [i] being the one
    [skip_count + i] positions after the read index (modulo [size]); the
    rest of the caller's array is untouched. *)
Theorem peek_with_skip (b : ringbuff) (m d : mem) (k btp : Z) :
  rb_ok M b -> buff b = Some m -> size b <= PTRDIFF_MAX ->
  size_t_ok btp -> 0 <= k < ringbuff_get_full M (Some b) ->
  let n := Z.min btp (ringbuff_get_full M (Some b) - k) in
  exists d' v,
    ringbuff_peek M (Some b) k (Some d) btp = mk_result (Some b) (v, Some d') [] /\
    v = n /\
    forall i, d' i = if (0 <=? i) && (i <? n) then m ((r b + k + i) mod size b) else d i.
Proof.
  intros Hok Em HP Hbtp Hk n. pose proof Hok as (Hv & Hs & Hr & Hw).
  destruct (buf_view_valid M b Hv) as (m0 & Em0 & Ev). rewrite Em in Em0. injection Em0 as <-.
  pose proof (used_of_range M b Hok) as HU.
  unfold n in *. clear n. rewrite (get_full_ok M b Hok) in *.
  unfold ringbuff_peek. rewrite Ev, (get_full_ok M b Hok), !BUF_MIN_min.
  unfold size_t_ok in *. rewrite SIZE_T_MOD_val in *. unfold PTRDIFF_MAX in HP.
  destruct (Z.eqb_spec btp 0) as [E0|E0].
  { do 2 eexists. split; [reflexivity|]. split; [lia|].
    intros i. zcase; zfinish. }
  rewrite Z.geb_leb. destruct (Z.leb_spec (used_of b) k); [lia|].
  rewrite (sz_small (r b + k)), (sz_small (used_of b - k)) by (rewrite SIZE_T_MOD_val; lia).
  assert (Hq : exists q, (if r b + k >=? size b then sz (r b + k - size b) else r b + k) = q /\
                         0 <= q < size b /\ q = (r b + k) mod size b).
  { rewrite mod_add_cases by lia. rewrite Z.geb_leb.
    destruct (Z.leb_spec (size b) (r b + k));
      [rewrite sz_small by (rewrite SIZE_T_MOD_val; lia)|];
      eexists; (split; [reflexivity|]); zcase; lia. }
  destruct Hq as (q & -> & Hq & Hqe).
  destruct (Z.eqb_spec (Z.min (used_of b - k) btp) 0) as [E2|E2]; [lia|].
  sz_simpl. rewrite Z.gtb_ltb.
  destruct (Z.ltb_spec 0 (Z.min (used_of b - k) btp
                          - Z.min (size b - q) (Z.min (used_of b - k) btp)));
    cbv beta iota zeta; do 2 eexists; (split; [reflexivity|]);
    (split; [lia|]);
    intros i; unfold memcpy;
    (destruct (Z.leb_spec 0 i); destruct (Z.ltb_spec i (Z.min btp (used_of b - k))); simpl;
     [replace ((r b + k + i) mod size b) with ((q + i) mod size b)
        by (rewrite Hqe, Zplus_mod_idemp_l; reflexivity);
      rewrite mod_add_cases by lia;
      destruct (Z.ltb_spec (q + i) (size b))| | |]);
    zcase; zfinish.
Qed.

(** On a handle in use, the write index is [used] bytes after the read
    index. *)
Lemma read_plus_used (b : ringbuff) :
  rb_ok M b -> (r b + used_of b) mod size b = w b.
Proof.
  intros (_ & _ & Hr & Hw). unfold used_of. destruct (Z.leb_spec (r b) (w b)).
  - replace (r b + (w b - r b)) with (w b) by lia. apply Z.mod_small; lia.
  - replace (r b + (size b - (r b - w b))) with (w b + 1 * size b) by lia.
    rewrite Z.mod_add by lia. apply Z.mod_small; lia.
Qed.

(** X10: FIFO order.  On a handle in use holding [u] bytes, writing [L]
    bytes ([1 <= L <= free]) and then reading [u + L] bytes returns the
    [u] bytes that were in use (from the read index on, modulo [size])
    followed by the [L] written bytes, and leaves the buffer empty. *)
Theorem write_then_read_fifo (b : ringbuff) (m d o : mem) (L : Z) :
  rb_ok M b -> buff b = Some m -> 1 <= L <= ringbuff_get_free M (Some b) ->
  let u := ringbuff_get_full M (Some b) in
  exists b' o',
    res_val (ringbuff_write M (Some b) (Some d) L) = L /\
    res_buf (ringbuff_write M (Some b) (Some d) L) = Some b' /\
    res_val (ringbuff_read M (Some b') (Some o) (u + L)) = (u + L, Some o') /\
    (forall k, 0 <= k < u -> o' k = m ((r b + k) mod size b)) /\
    (forall k, u <= k < u + L -> o' k = d (k - u)) /\
    ringbuff_get_full M (res_buf (ringbuff_read M (Some b') (Some o) (u + L))) = 0.
Proof.
  intros Hok Em HL u. pose proof Hok as (Hv & Hs & Hr & Hw). unfold size_t_ok in Hs.
  pose proof (used_of_range M b Hok) as HU. pose proof (read_plus_used b Hok) as Hru.
  unfold u in *. clear u. rewrite (get_full_ok M b Hok).
  rewrite (get_free_ok M b Hok) in HL.
  assert (HL' : size_t_ok L) by (unfold size_t_ok; lia).
  destruct (write_result M b m d L Hok Em HL')
    as [(Hn & _)|(_ & m' & wp & v & Ew & -> & Hwp & Hc)]; [lia|].
  replace (Z.min L (size b - 1 - used_of b)) with L in Hc, Hwp, Ew by lia.
  set (b' := set_w (set_buff b (Some m')) wp).
  assert (Hwp' : 0 <= wp < size b) by (rewrite Hwp; apply Z.mod_pos_bound; lia).
  assert (Hok' : rb_ok M b') by (apply rb_ok_set_w; [apply (rb_ok_set_buff b m); assumption|exact Hwp']).
  assert (Hu' : used_of b' = used_of b + L).
  { rewrite (used_of_mod M b' Hok'). unfold b'; simpl. rewrite Hwp, <- Hru.
    rewrite Zplus_mod_idemp_l, Zminus_mod_idemp_l.
    replace (r b + used_of b + L - r b) with (used_of b + L) by lia.
    apply Z.mod_small; lia. }
  assert (HuL : size_t_ok (used_of b + L)) by (unfold size_t_ok; lia).
  destruct (read_result M b' m' o (used_of b + L) Hok' eq_refl HuL)
    as [(Hn & _)|(_ & o' & rp & v' & Er & -> & Hrp & Hc')]; [rewrite Hu' in Hn; lia|].
  rewrite Hu', Z.min_id in Er, Hrp, Hc'.
  exists b', o'. rewrite Ew. cbn [res_val res_buf].
  split; [reflexivity|]. split; [reflexivity|].
  rewrite Er. cbn [res_val res_buf]. split; [reflexivity|].
  assert (Hpos : forall k, 0 <= k < used_of b + L ->
            o' k = m' ((r b + k) mod size b) /\
            ((r b + k) mod size b - w b) mod size b = (k - used_of b) mod size b).
  { intros k Hk. rewrite Hc'. unfold b'; simpl.
    destruct (Z.leb_spec 0 k); [|lia]. destruct (Z.ltb_spec k (used_of b + L)); [|lia].
    split; [reflexivity|]. rewrite <- Hru, Zminus_mod_idemp_l, Zminus_mod_idemp_r.
    f_equal. lia. }
  assert (Hin : forall k, 0 <= k < used_of b + L ->
            0 <= (r b + k) mod size b < size b) by (intros; apply Z.mod_pos_bound; lia).
  split; [|split].
  - intros k Hk. destruct (Hpos k ltac:(lia)) as [-> Hm]. rewrite Hc, Hm.
    pose proof (Hin k ltac:(lia)) as Hb.
    destruct (Z.leb_spec 0 ((r b + k) mod size b)); [|lia].
    destruct (Z.ltb_spec ((r b + k) mod size b) (size b)); [|lia].
    replace ((k - used_of b) mod size b) with (k - used_of b + size b)
      by (apply Z.mod_unique with (-1); lia).
    destruct (Z.ltb_spec (k - used_of b + size b) L); [lia|]. reflexivity.
  - intros k Hk. destruct (Hpos k ltac:(lia)) as [-> Hm]. rewrite Hc, Hm.
    pose proof (Hin k ltac:(lia)) as Hb.
    destruct (Z.leb_spec 0 ((r b + k) mod size b)); [|lia].
    destruct (Z.ltb_spec ((r b + k) mod size b) (size b)); [|lia].
    rewrite (Z.mod_small (k - used_of b)) by lia.
    destruct (Z.ltb_spec (k - used_of b) L); [|lia]. reflexivity.
  - assert (Hok'' : rb_ok M (set_r b' rp))
      by (apply rb_ok_set_r; [exact Hok'|]; rewrite Hrp; unfold b'; simpl; apply Z.mod_pos_bound; lia).
    rewrite (get_full_ok M _ Hok'').
    assert (E : rp = wp).
    { rewrite Hrp, Hwp. unfold b'; simpl. rewrite <- Hru, Zplus_mod_idemp_l. f_equal. lia. }
    unfold used_of. unfold b' in *; simpl. rewrite E. zcase; lia.
Qed.

Lemma map_seq_offset {A : Type} (f : nat -> A) (s n : nat) :
  map f (seq s n) = map (fun k => f (s + k)%nat) (seq 0 n).
Proof.
  revert s. induction n as [|n IH]; intros s; [reflexivity|].
  cbn [seq map]. rewrite IH, <- seq_shift, map_map. rewrite Nat.add_0_r. f_equal.
  apply map_ext. intros k. f_equal. lia.
Qed.

Lemma map_mod_small (m : mem) (p n N : Z) :
  0 <= p -> 0 <= n -> p + n <= N ->
  map (fun k => m (p + Z.of_nat k)) (seq 0 (Z.to_nat n)) =
  map (fun k => m ((p + Z.of_nat k) mod N)) (seq 0 (Z.to_nat n)).
Proof.
  intros Hp Hn HN. apply map_ext_in. intros k Hk. apply in_seq in Hk.
  assert (Z.of_nat k < n) by lia. rewrite Z.mod_small by lia. reflexivity.
Qed.

(** Run of the linear read block of a handle in use. *)
Lemma linear_read_length_le (b : ringbuff) :
  rb_ok M b ->
  let len := ringbuff_get_linear_block_read_length M (Some b) in
  0 <= len /\ r b + len <= size b /\ len <= used_of b.
Proof.
  intros Hok len. pose proof Hok as (Hv & Hs & Hr & Hw).
  unfold len. rewrite (linear_read_length_ok b Hok). unfold used_of. zcase; lia.
Qed.

(** One pass of the CM7 loop on a handle in use. *)
Lemma cm7_poll_ok (b : ringbuff) (m : mem) :
  rb_ok M b -> buff b = Some m ->
  let len := ringbuff_get_linear_block_read_length M (Some b) in
  cm7_poll M (Some b) =
    if 0 <? len
    then (Some (set_r b ((r b + len) mod size b)),
          map (fun k => m (r b + Z.of_nat k)) (seq 0 (Z.to_nat len)))
    else (Some b, []).
Proof.
  intros Hok Em len. pose proof Hok as (Hv & Hs & Hr & Hw).
  destruct (buf_view_valid M b Hv) as (m0 & Em0 & Ev). rewrite Em in Em0. injection Em0 as <-.
  pose proof (linear_read_length_le b Hok) as HB. cbv zeta in HB. fold len in HB.
  unfold cm7_poll. fold len. rewrite Z.gtb_ltb.
  destruct (Z.ltb_spec 0 len); [|reflexivity].
  unfold ringbuff_get_linear_block_read_address. rewrite Ev.
  rewrite (skip_small b len Hok) by lia.
  destruct (Z.eqb_spec len 0); [lia|]. reflexivity.
Qed.

(** X11: two passes of the CM7 main loop (linear read block handed to
    the UART, then [ringbuff_skip] of its length) on a handle in use
    transmit every byte in use, in order from the read index (modulo
    [size]), and leave the buffer empty. *)
Theorem cm7_poll_twice_drains (b : ringbuff) (m : mem) :
  rb_ok M b -> buff b = Some m ->
  let p1 := cm7_poll M (Some b) in
  let p2 := cm7_poll M (fst p1) in
  snd p1 ++ snd p2 =
    map (fun k => m ((r b + Z.of_nat k) mod size b))
        (seq 0 (Z.to_nat (ringbuff_get_full M (Some b)))) /\
  ringbuff_get_full M (fst p2) = 0.
Proof.
  intros Hok Em. cbv zeta. pose proof Hok as (Hv & Hs & Hr & Hw). unfold size_t_ok in Hs.
  rewrite (get_full_ok M b Hok), (cm7_poll_ok b m Hok Em), (linear_read_length_ok b Hok).
  destruct (Z.ltb_spec (r b) (w b)) as [Hlt|Hge].
  - destruct (Z.ltb_spec 0 (w b - r b)); [|lia]. cbn [fst snd].
    replace ((r b + (w b - r b)) mod size b) with (w b)
      by (replace (r b + (w b - r b)) with (w b) by lia; rewrite Z.mod_small; lia).
    assert (Hok1 : rb_ok M (set_r b (w b))) by (apply rb_ok_set_r; [exact Hok|lia]).
    rewrite (cm7_poll_ok _ m Hok1 Em), (linear_read_length_ok _ Hok1).
    cbn [set_r r w size]. rewrite Z.ltb_irrefl. cbn [fst snd Z.ltb Z.compare].
    rewrite (get_full_ok M _ Hok1). unfold used_of. cbn [set_r r w size].
    rewrite Z.leb_refl, Z.sub_diag. destruct (Z.leb_spec (r b) (w b)); [|lia].
    rewrite app_nil_r. split; [apply map_mod_small; lia|reflexivity].
  - destruct (Z.ltb_spec (w b) (r b)) as [Hwr|Hwr].
    + destruct (Z.ltb_spec 0 (size b - r b)); [|lia]. cbn [fst snd].
      replace ((r b + (size b - r b)) mod size b) with 0
        by (replace (r b + (size b - r b)) with (size b) by lia; rewrite Z.mod_same; lia).
      assert (Hok1 : rb_ok M (set_r b 0)) by (apply rb_ok_set_r; [exact Hok|lia]).
      rewrite (cm7_poll_ok _ m Hok1 Em), (linear_read_length_ok _ Hok1).
      cbn [set_r r w size].
      unfold used_of. destruct (Z.leb_spec (r b) (w b)); [lia|].
      replace (size b - (r b - w b)) with ((size b - r b) + w b) by lia.
      rewrite Z2Nat.inj_add, seq_app, map_app by lia.
      destruct (Z.ltb_spec 0 (w b)).
      * destruct (Z.ltb_spec 0 (w b - 0)); [|lia]. cbn [fst snd].
        rewrite Z.sub_0_r, Z.add_0_l, (Z.mod_small (w b)) by lia.
        assert (Hok2 : rb_ok M (set_r (set_r b 0) (w b)))
          by (apply rb_ok_set_r; [exact Hok1|cbn; lia]).
        rewrite (get_full_ok M _ Hok2). cbn [set_r r w size].
        unfold used_of. cbn [set_r r w size]. rewrite Z.leb_refl, Z.sub_diag. split; [|reflexivity].
        f_equal; [apply map_mod_small; lia|].
        rewrite (map_seq_offset _ (0 + _)%nat). apply map_ext_in. intros k Hk. apply in_seq in Hk.
        assert (Z.of_nat k < w b) by lia. f_equal.
        rewrite Nat.add_0_l, Nat2Z.inj_add, Z2Nat.id by lia.
        replace (r b + (size b - r b + Z.of_nat k)) with (Z.of_nat k + 1 * size b) by lia.
        rewrite Z.mod_add, Z.mod_small by lia. lia.
      * assert (E : w b = 0) by lia. rewrite E. cbn [fst snd Z.ltb Z.compare].
        rewrite (get_full_ok M _ Hok1). cbn [set_r r w size]. unfold used_of.
        cbn [set_r r w size]. rewrite E. cbn.
        split; [|lia]. rewrite !app_nil_r. apply map_mod_small; lia.
    + assert (E : r b = w b) by lia. cbn [fst snd Z.ltb Z.compare].
      rewrite (cm7_poll_ok b m Hok Em), (linear_read_length_ok b Hok), E, Z.ltb_irrefl.
      cbn [fst snd Z.ltb Z.compare app]. rewrite (get_full_ok M b Hok). unfold used_of.
      rewrite E, Z.leb_refl, Z.sub_diag. split; reflexivity.
Qed.

Lemma MEM_ALIGN_eq (x : Z) : MEM_ALIGN x = 4 * ((x + 3) / 4).
Proof.
  unfold MEM_ALIGN. change (Z.lnot 3) with (Z.lnot (Z.ones 2)).
  rewrite <- Z.ldiff_land, Z.ldiff_ones_r by lia.
  rewrite Z.shiftl_mul_pow2, Z.shiftr_div_pow2 by lia.
  change (2 ^ 2) with 4. lia.
Qed.

Lemma MEM_ALIGN_bounds (x : Z) : x <= MEM_ALIGN x <= x + 3 /\ MEM_ALIGN x mod 4 = 0.
Proof.
  rewrite MEM_ALIGN_eq. pose proof (Z.div_mod (x + 3) 4 ltac:(lia)).
  pose proof (Z.mod_pos_bound (x + 3) 4 ltac:(lia)).
  split; [lia|]. rewrite Z.mul_comm. apply Z.mod_mul. lia.
Qed.

Lemma MEM_ALIGN_mul4 (k : Z) : MEM_ALIGN (4 * k) = 4 * k.
Proof.
  rewrite MEM_ALIGN_eq. f_equal. symmetry. apply Z.div_unique with 3; lia.
Qed.


Lemma mod4_mul (x : Z) : (4 * x) mod 4 = 0.
Proof. rewrite Z.mul_comm. apply Z.mod_mul. lia. Qed.

(** X13: for any [sizeof(ringbuff_t)] up to 31740 bytes, the layout of
    common.h places the four regions (CM4-to-CM7 struct, its data, the
    CM7-to-CM4 struct, its data) at 4-aligned addresses, one after the
    other without overlap, each struct region holding at least
    [sizeof(ringbuff_t)] bytes and each data region 1024 bytes, all
    inside the shared RAM [SHD_RAM_START_ADDR .. + SHD_RAM_LEN]. *)
Theorem shd_layout (s : Z) :
  0 <= s <= 31740 ->
  BUFF_CM4_TO_CM7_ADDR = SHD_RAM_START_ADDR /\
  (forall a l, In (a, l) (shd_regions s) -> a mod 4 = 0) /\
  s <= BUFF_CM4_TO_CM7_LEN s /\ s <= BUFF_CM7_TO_CM4_LEN s /\
  BUFFDATA_CM4_TO_CM7_LEN = 1024 /\ BUFFDATA_CM7_TO_CM4_LEN = 1024 /\
  BUFF_CM4_TO_CM7_ADDR + BUFF_CM4_TO_CM7_LEN s <= BUFFDATA_CM4_TO_CM7_ADDR s /\
  BUFFDATA_CM4_TO_CM7_ADDR s + BUFFDATA_CM4_TO_CM7_LEN <= BUFF_CM7_TO_CM4_ADDR s /\
  BUFF_CM7_TO_CM4_ADDR s + BUFF_CM7_TO_CM4_LEN s <= BUFFDATA_CM7_TO_CM4_ADDR s /\
  BUFFDATA_CM7_TO_CM4_ADDR s + BUFFDATA_CM7_TO_CM4_LEN <= SHD_RAM_START_ADDR + SHD_RAM_LEN.
Proof.
  intros Hs. destruct (MEM_ALIGN_bounds s) as [HA HA4].
  pose proof (Z.div_mod (MEM_ALIGN s) 4 ltac:(lia)) as HAq. rewrite HA4, Z.add_0_r in HAq.
  set (a := MEM_ALIGN s / 4) in *.
  assert (E1 : BUFF_CM4_TO_CM7_ADDR = 4 * 0x0E000000) by (vm_compute; reflexivity).
  assert (E2 : BUFF_CM4_TO_CM7_LEN s = 4 * a) by exact HAq.
  assert (E2' : BUFF_CM7_TO_CM4_LEN s = 4 * a) by exact HAq.
  assert (E3 : BUFFDATA_CM4_TO_CM7_LEN = 1024) by (vm_compute; reflexivity).
  assert (E3' : BUFFDATA_CM7_TO_CM4_LEN = 1024) by (vm_compute; reflexivity).
  assert (E4 : BUFFDATA_CM4_TO_CM7_ADDR s = 4 * (0x0E000000 + a)).
  { unfold BUFFDATA_CM4_TO_CM7_ADDR. rewrite E1, E2, <- Z.mul_add_distr_l.
    apply MEM_ALIGN_mul4. }
  assert (E5 : BUFF_CM7_TO_CM4_ADDR s = 4 * (0x0E000000 + a + 256)).
  { unfold BUFF_CM7_TO_CM4_ADDR. rewrite E4, E3.
    replace (4 * (0x0E000000 + a) + 1024) with (4 * (0x0E000000 + a + 256)) by lia.
    apply MEM_ALIGN_mul4. }
  assert (E6 : BUFFDATA_CM7_TO_CM4_ADDR s = 4 * (0x0E000000 + 2 * a + 256)).
  { unfold BUFFDATA_CM7_TO_CM4_ADDR. rewrite E5, E2'.
    replace (4 * (0x0E000000 + a + 256) + 4 * a) with (4 * (0x0E000000 + 2 * a + 256)) by lia.
    apply MEM_ALIGN_mul4. }
  split; [reflexivity|]. split.
  - intros x l Hin. unfold shd_regions in Hin.
    rewrite E1, E4, E5, E6 in Hin. cbn [In] in Hin.
    destruct Hin as [Hx|[Hx|[Hx|[Hx|[]]]]]; apply (f_equal fst) in Hx; cbn [fst] in Hx;
      rewrite <- Hx; apply mod4_mul.
  - rewrite E1, E2, E2', E3, E3', E4, E5, E6. unfold SHD_RAM_START_ADDR, SHD_RAM_LEN.
    assert (a <= 7935) by lia. repeat split; lia.
Qed.

End MoreProofs.

(** ** Instances of the further properties *)

Lemma linear_read_length_bounds_witness :
  rb_ok true ex_rb /\
  let len := ringbuff_get_linear_block_read_length true (Some ex_rb) in
  0 <= len /\ r ex_rb + len <= size ex_rb /\ len <= ringbuff_get_full true (Some ex_rb) /\
  (len = 0 <-> ringbuff_get_full true (Some ex_rb) = 0).
Proof.
  assert (H : rb_ok true ex_rb) by rb_ok_tac.
  split; [exact H | exact (linear_read_length_bounds true ex_rb H)].
Defined.

Lemma linear_read_then_skip_witness :
  rb_ok true ex_rb /\ buff ex_rb = Some ex_zero /\
  let len := ringbuff_get_linear_block_read_length true (Some ex_rb) in
  ringbuff_get_linear_block_read_address true (Some ex_rb) = Some (ex_zero, r ex_rb) /\
  res_buf (ringbuff_skip true (Some ex_rb) len) =
    res_buf (ringbuff_read true (Some ex_rb) (Some ex_data) len) /\
  res_evts (ringbuff_skip true (Some ex_rb) len) =
    res_evts (ringbuff_read true (Some ex_rb) (Some ex_data) len) /\
  exists o', res_val (ringbuff_read true (Some ex_rb) (Some ex_data) len) = (len, Some o') /\
    forall k, 0 <= k < len -> o' k = ex_zero (r ex_rb + k).
Proof.
  assert (H : rb_ok true ex_rb) by rb_ok_tac.
  split; [exact H|]. split; [reflexivity|].
  exact (linear_read_then_skip true ex_rb ex_zero ex_data H eq_refl).
Defined.

Lemma linear_write_length_bounds_witness :
  rb_ok true ex_rb /\
  let len := ringbuff_get_linear_block_write_length true (Some ex_rb) in
  0 <= len /\ w ex_rb + len <= size ex_rb /\ len <= ringbuff_get_free true (Some ex_rb) /\
  (len = 0 <-> ringbuff_get_free true (Some ex_rb) = 0).
Proof.
  assert (H : rb_ok true ex_rb) by rb_ok_tac.
  split; [exact H | exact (linear_write_length_bounds true ex_rb H)].
Defined.

Lemma advance_moves_write_index_witness :
  rb_ok true ex_rb /\ size_t_ok 5 /\ size ex_rb <= PTRDIFF_MAX /\
  let n := Z.min 5 (ringbuff_get_free true (Some ex_rb)) in
  let res := ringbuff_advance true (Some ex_rb) 5 in
  res_val res = n /\
  res_buf res = Some (set_w ex_rb ((w ex_rb + n) mod size ex_rb)) /\
  ringbuff_get_full true (res_buf res) = ringbuff_get_full true (Some ex_rb) + n /\
  ringbuff_get_free true (res_buf res) = ringbuff_get_free true (Some ex_rb) - n.
Proof.
  assert (H : rb_ok true ex_rb) by rb_ok_tac.
  assert (Hs : size_t_ok 5) by (unfold size_t_ok; rewrite SIZE_T_MOD_val; lia).
  assert (HP : size ex_rb <= PTRDIFF_MAX) by (unfold PTRDIFF_MAX; simpl; lia).
  split; [exact H|]. split; [exact Hs|]. split; [exact HP|].
  exact (advance_moves_write_index true ex_rb 5 H Hs HP).
Defined.

Lemma reset_empties_witness :
  BUF_IS_VALID true (Some ex_rb) = true /\ size_t_ok (size ex_rb) /\
  exists b', ringbuff_reset true (Some ex_rb) =
               mk_result (Some b') tt (BUF_SEND_EVT b' RINGBUFF_EVT_RESET 0) /\
    rb_ok true b' /\ buff b' = buff ex_rb /\ size b' = size ex_rb /\ evt_fn b' = evt_fn ex_rb /\
    ringbuff_get_full true (Some b') = 0 /\ ringbuff_get_free true (Some b') = size ex_rb - 1.
Proof.
  assert (Hv : BUF_IS_VALID true (Some ex_rb) = true) by reflexivity.
  assert (Hs : size_t_ok (size ex_rb)) by (unfold size_t_ok; rewrite SIZE_T_MOD_val; simpl; lia).
  split; [exact Hv|]. split; [exact Hs|].
  exact (reset_empties true ex_rb Hv Hs).
Defined.

Lemma free_retires_handle_witness :
  (forall o, In o [OpWrite (Some ex_data) 3; OpReset] -> forall p n, o <> OpInit p n) /\
  ringbuff_is_ready true (ringbuff_free true (Some ex_rb)) = false /\
  exec_ops true [OpWrite (Some ex_data) 3; OpReset] (ringbuff_free true (Some ex_rb)) =
    (ringbuff_free true (Some ex_rb), []).
Proof.
  assert (Ho : forall o, In o [OpWrite (Some ex_data) 3; OpReset] -> forall p n, o <> OpInit p n).
  { intros o Hin p n. destruct Hin as [<-|[<-|[]]]; discriminate. }
  split; [exact Ho|].
  exact (free_retires_handle true (Some ex_rb) [OpWrite (Some ex_data) 3; OpReset] Ho).
Defined.

Lemma init_result_witness :
  size_t_ok 4 /\
  ((Some ex_rb = None \/ Some ex_zero = None \/ 4 = 0) ->
   ringbuff_init true (Some ex_rb) (Some ex_zero) 4 = (Some ex_rb, 0)) /\
  (Some ex_rb <> None -> Some ex_zero <> None -> 4 <> 0 ->
   exists b', ringbuff_init true (Some ex_rb) (Some ex_zero) 4 = (Some b', 1) /\
     rb_ok true b' /\ ringbuff_is_ready true (Some b') = true /\ buff b' = Some ex_zero /\
     size b' = 4 /\ ringbuff_get_full true (Some b') = 0 /\
     ringbuff_get_free true (Some b') = 4 - 1 /\
     ringbuff_get_linear_block_write_length true (Some b') = 4 - 1 /\ evt_fn b' = None).
Proof.
  assert (Hs : size_t_ok 4) by (unfold size_t_ok; rewrite SIZE_T_MOD_val; lia).
  split; [exact Hs|].
  exact (init_result true (Some ex_rb) (Some ex_zero) 4 Hs).
Defined.

Lemma linear_store_advance_is_write_witness :
  rb_ok true ex_rb /\ buff ex_rb = Some ex_zero /\
  1 <= 2 <= ringbuff_get_linear_block_write_length true (Some ex_rb) /\
  ringbuff_advance true (store_linear true (Some ex_rb) ex_data 2) 2 =
    ringbuff_write true (Some ex_rb) (Some ex_data) 2.
Proof.
  assert (H : rb_ok true ex_rb) by rb_ok_tac.
  assert (HL : 1 <= 2 <= ringbuff_get_linear_block_write_length true (Some ex_rb))
    by (vm_compute; split; discriminate).
  split; [exact H|]. split; [reflexivity|]. split; [exact HL|].
  exact (linear_store_advance_is_write true ex_rb ex_zero ex_data 2 H eq_refl HL).
Defined.

Lemma peek_with_skip_witness :
  rb_ok true ex_rb /\ buff ex_rb = Some ex_zero /\ size ex_rb <= PTRDIFF_MAX /\
  size_t_ok 5 /\ 0 <= 1 < ringbuff_get_full true (Some ex_rb) /\
  let n := Z.min 5 (ringbuff_get_full true (Some ex_rb) - 1) in
  exists d' v,
    ringbuff_peek true (Some ex_rb) 1 (Some ex_data) 5 = mk_result (Some ex_rb) (v, Some d') [] /\
    v = n /\
    forall i, d' i = if (0 <=? i) && (i <? n) then ex_zero ((r ex_rb + 1 + i) mod size ex_rb)
                     else ex_data i.
Proof.
  assert (H : rb_ok true ex_rb) by rb_ok_tac.
  assert (HP : size ex_rb <= PTRDIFF_MAX) by (unfold PTRDIFF_MAX; simpl; lia).
  assert (Hs : size_t_ok 5) by (unfold size_t_ok; rewrite SIZE_T_MOD_val; lia).
  assert (Hk : 0 <= 1 < ringbuff_get_full true (Some ex_rb)) by (split; [lia | vm_compute; reflexivity]).
  split; [exact H|]. split; [reflexivity|]. split; [exact HP|]. split; [exact Hs|].
  split; [exact Hk|].
  exact (peek_with_skip true ex_rb ex_zero ex_data 1 5 H eq_refl HP Hs Hk).
Defined.

Lemma write_then_read_fifo_witness :
  rb_ok true ex_rb /\ buff ex_rb = Some ex_zero /\
  1 <= 2 <= ringbuff_get_free true (Some ex_rb) /\
  let u := ringbuff_get_full true (Some ex_rb) in
  exists b' o',
    res_val (ringbuff_write true (Some ex_rb) (Some ex_data) 2) = 2 /\
    res_buf (ringbuff_write true (Some ex_rb) (Some ex_data) 2) = Some b' /\
    res_val (ringbuff_read true (Some b') (Some ex_zero) (u + 2)) = (u + 2, Some o') /\
    (forall k, 0 <= k < u -> o' k = ex_zero ((r ex_rb + k) mod size ex_rb)) /\
    (forall k, u <= k < u + 2 -> o' k = ex_data (k - u)) /\
    ringbuff_get_full true (res_buf (ringbuff_read true (Some b') (Some ex_zero) (u + 2))) = 0.
Proof.
  assert (H : rb_ok true ex_rb) by rb_ok_tac.
  assert (HL : 1 <= 2 <= ringbuff_get_free true (Some ex_rb)) by (vm_compute; split; discriminate).
  split; [exact H|]. split; [reflexivity|]. split; [exact HL|].
  exact (write_then_read_fifo true ex_rb ex_zero ex_data ex_zero 2 H eq_refl HL).
Defined.

Lemma cm7_poll_twice_drains_witness :
  rb_ok true ex_rb /\ buff ex_rb = Some ex_zero /\
  let p1 := cm7_poll true (Some ex_rb) in
  let p2 := cm7_poll true (fst p1) in
  snd p1 ++ snd p2 =
    map (fun k => ex_zero ((r ex_rb + Z.of_nat k) mod size ex_rb))
        (seq 0 (Z.to_nat (ringbuff_get_full true (Some ex_rb)))) /\
  ringbuff_get_full true (fst p2) = 0.
Proof.
  assert (H : rb_ok true ex_rb) by rb_ok_tac.
  split; [exact H|]. split; [reflexivity|].
  exact (cm7_poll_twice_drains true ex_rb ex_zero H eq_refl).
Defined.

Lemma shd_layout_witness :
  0 <= 28 <= 31740 /\
  BUFF_CM4_TO_CM7_ADDR = SHD_RAM_START_ADDR /\
  (forall a l, In (a, l) (shd_regions 28) -> a mod 4 = 0) /\
  28 <= BUFF_CM4_TO_CM7_LEN 28 /\ 28 <= BUFF_CM7_TO_CM4_LEN 28 /\
  BUFFDATA_CM4_TO_CM7_LEN = 1024 /\ BUFFDATA_CM7_TO_CM4_LEN = 1024 /\
  BUFF_CM4_TO_CM7_ADDR + BUFF_CM4_TO_CM7_LEN 28 <= BUFFDATA_CM4_TO_CM7_ADDR 28 /\
  BUFFDATA_CM4_TO_CM7_ADDR 28 + BUFFDATA_CM4_TO_CM7_LEN <= BUFF_CM7_TO_CM4_ADDR 28 /\
  BUFF_CM7_TO_CM4_ADDR 28 + BUFF_CM7_TO_CM4_LEN 28 <= BUFFDATA_CM7_TO_CM4_ADDR 28 /\
  BUFFDATA_CM7_TO_CM4_ADDR 28 + BUFFDATA_CM7_TO_CM4_LEN <= SHD_RAM_START_ADDR + SHD_RAM_LEN.
Proof.
  assert (H : 0 <= 28 <= 31740) by lia.
  split; [exact H | exact (shd_layout 28 H)].
Defined.

End RingBuff.
